(** * lazy-bird issue watcher: a shallow embedding of [scripts/issue-watcher.py]

    The development follows the Python source function by function.

    - Python [str] values are Rocq [string]s; one [ascii] stands for one code
      point in the range 0..255 (code points above 255 are outside the model).
    - Python [dict]s that are only read back by key ([sections], the queue
      directory seen as a map from path to file content) are [gmap]s, the
      [processed_issues] set is a [gset string].
    - Code that talks to the outside world (network, file system, clock,
      subprocesses) runs in a small state-and-exception monad over a [World];
      what the outside world answers is read from an [Env] record of oracles.
      Only exceptions deriving from Python's [Exception] are modelled:
      [KeyboardInterrupt], which [except Exception] does not catch, is the
      shutdown signal of the daemon and is not part of a polling round. *)

From Stdlib Require Import ZArith Ascii String DecimalString.
From Stdlib Require DecimalPos DecimalZ.
From stdpp Require Import gmap strings list fin_maps sorting.

Local Open Scope Z_scope.
#[local] Set Warnings "-clear-no-such-hyp".

(** ** Python string primitives *)

Module PyStr.

(** [str.isspace] on a single code point below 256. *)
Definition is_space (c : ascii) : bool :=
  match N_of_ascii c with
  | 9 | 10 | 11 | 12 | 13 | 28 | 29 | 30 | 31 | 32 | 133 | 160 => true
  | _ => false
  end%N.

Definition nl : ascii := ascii_of_N 10.
Definition hash : ascii := "#"%char.
Definition slash : ascii := "/"%char.

Definition is_char (a c : ascii) : bool := Ascii.eqb a c.

Definition is_empty (s : string) : bool :=
  match s with EmptyString => true | String _ _ => false end.

(** [s.lstrip(chars)] with the character class given as a predicate. *)
Fixpoint lstrip_with (p : ascii → bool) (s : string) : string :=
  match s with
  | EmptyString => EmptyString
  | String c s' => if p c then lstrip_with p s' else s
  end.

(** [s.rstrip(chars)]. *)
Fixpoint rstrip_with (p : ascii → bool) (s : string) : string :=
  match s with
  | EmptyString => EmptyString
  | String c s' =>
      let r := rstrip_with p s' in
      if p c && is_empty r then EmptyString else String c r
  end.

(** [s.strip()]. *)
Definition strip (s : string) : string :=
  rstrip_with is_space (lstrip_with is_space s).

(** [s.startswith(p)]. *)
Fixpoint startswith (p s : string) : bool :=
  match p, s with
  | EmptyString, _ => true
  | String _ _, EmptyString => false
  | String a p', String b s' => Ascii.eqb a b && startswith p' s'
  end.

(** [s.startswith((p1, ..., pn))]. *)
Definition startswith_any (ps : list string) (s : string) : bool :=
  existsb (λ p, startswith p s) ps.

(** [s.split(sep)] for a one-character separator. *)
Fixpoint split (sep : ascii) (s : string) : list string :=
  match s with
  | EmptyString => [EmptyString]
  | String c s' =>
      if is_char sep c then EmptyString :: split sep s'
      else match split sep s' with
           | x :: xs => String c x :: xs
           | [] => [String c EmptyString]
           end
  end.

(** [sep.join(parts)]. *)
Fixpoint join (sep : string) (parts : list string) : string :=
  match parts with
  | [] => EmptyString
  | [x] => x
  | x :: xs => x +:+ sep +:+ join sep xs
  end.

(** [str(n)] for an [int]. *)
Definition of_int (n : Z) : string := NilZero.string_of_int (Z.to_int n).

(** [l[-2:]]. *)
Definition last2 {A} (l : list A) : list A := drop (length l - 2)%nat l.

End PyStr.

(** ** The task parser: [ProjectWatcher.parse_markdown_sections] *)

(** Truth value of [current_section], which is [None] or a [str]. *)
Definition truthy (o : option string) : bool :=
  match o with
  | Some s => negb (PyStr.is_empty s)
  | None => false
  end.

Definition list_markers : list string :=
  ["1."; "2."; "3."; "4."; "5."; "6."; "7."; "8."; "9.";
   "-"; "*"; "[ ]"; "[x]"].

(** The three locals of the loop. *)
Record parse_state := ParseState {
  sections : gmap string (list string);
  current_section : option string;
  current_content : list string
}.

(** [if current_section: sections[current_section] = current_content] *)
Definition save_section (st : parse_state) : gmap string (list string) :=
  match current_section st with
  | Some name =>
      if truthy (Some name) then <[name := current_content st]> (sections st)
      else sections st
  | None => sections st
  end.

(** [line.strip().startswith('##')] *)
Definition is_section_header (line : string) : bool :=
  PyStr.startswith "##" (PyStr.strip line).

(** [line.strip().lstrip('#').strip()] *)
Definition header_name (line : string) : string :=
  PyStr.strip (PyStr.lstrip_with (PyStr.is_char PyStr.hash) (PyStr.strip line)).

(** [stripped and stripped.startswith(('1.', ..., '[x]'))] *)
Definition is_list_item (stripped : string) : bool :=
  negb (PyStr.is_empty stripped) && PyStr.startswith_any list_markers stripped.

(** One iteration of [for line in body.split('\n')]. *)
Definition parse_line (st : parse_state) (line : string) : parse_state :=
  if is_section_header line then
    {| sections := save_section st;
       current_section := Some (header_name line);
       current_content := [] |}
  else if truthy (current_section st) then
    let stripped := PyStr.strip line in
    if is_list_item stripped then
      {| sections := sections st;
         current_section := current_section st;
         current_content := current_content st ++ [stripped] |}
    else st
  else st.

Definition parse_init : parse_state :=
  {| sections := ∅; current_section := None; current_content := [] |}.

Definition parse_lines (st : parse_state) (lines : list string) : parse_state :=
  fold_left parse_line lines st.

Definition body_lines (body : string) : list string := PyStr.split PyStr.nl body.

Definition parse_markdown_sections (body : string) : gmap string (list string) :=
  save_section (parse_lines parse_init (body_lines body)).

(** [sections.get(name, [])] *)
Definition sections_get (name : string) (secs : gmap string (list string)) : list string :=
  default [] (secs !! name).

(** ** Data model *)

(** The issue dict built by [fetch_github_issues] / [fetch_gitlab_issues]. *)
Record Issue := mkIssue {
  i_id : Z;
  i_title : string;
  i_body : string;
  i_labels : list string;
  i_url : string;
  i_created_at : string
}.

(** One project entry of the configuration ([project_config]); the keys read
    with [.get] are optional. *)
Record ProjectConfig := mkProjectConfig {
  c_project_id : option Z;
  c_test_command : option string;
  c_build_command : option string;
  c_lint_command : option string;
  c_format_command : option string
}.

(** The attributes [ProjectWatcher.__init__] sets. *)
Record ProjectWatcher := mkProjectWatcher {
  project_config : ProjectConfig;
  project_id : string;
  project_name : string;
  project_type : string;
  project_path : string;
  platform : string;
  repository : string;
  token : string
}.

(** The task dict returned by [parse_issue]. *)
Record Task := mkTask {
  t_issue_id : Z;
  t_title : string;
  t_body : string;
  t_steps : list string;
  t_acceptance_criteria : list string;
  t_complexity : string;
  t_url : string;
  t_queued_at : string;
  t_platform : string;
  t_repository : string;
  t_project_id : string;
  t_project_name : string;
  t_project_type : string;
  t_project_path : string;
  t_test_command : option string;
  t_build_command : option string;
  t_lint_command : option string;
  t_format_command : option string
}.

(** Entries of the tracker responses, before conversion to [Issue]. *)
Record GithubItem := mkGithubItem {
  gh_number : Z;
  gh_title : string;
  gh_body : option string;
  gh_labels : list string;
  gh_html_url : string;
  gh_created_at : string;
  gh_pull_request : bool
}.

Record GitlabItem := mkGitlabItem {
  gl_iid : Z;
  gl_title : string;
  gl_description : option string;
  gl_labels : list string;
  gl_web_url : string;
  gl_created_at : string
}.

(** ** [ProjectWatcher.parse_issue] *)

Definition complexity_labels : list string := ["simple"; "medium"; "complex"].

(** The [for label in issue['labels']: ... break] loop, started from the
    default. *)
Fixpoint scan_complexity (complexity : string) (labels : list string) : string :=
  match labels with
  | [] => complexity
  | label :: rest =>
      if bool_decide (label ∈ complexity_labels) then label
      else scan_complexity complexity rest
  end.

(** The body of [parse_issue]; [now] is what [datetime.utcnow().isoformat()]
    returns when the function runs. *)
Definition parse_issue_at (now : string) (pw : ProjectWatcher) (issue : Issue) : Task :=
  let body := i_body issue in
  let complexity := scan_complexity "medium" (i_labels issue) in
  let sections := parse_markdown_sections body in
  let steps := sections_get "Detailed Steps" sections in
  let acceptance_criteria := sections_get "Acceptance Criteria" sections in
  {| t_issue_id := i_id issue;
     t_title := i_title issue;
     t_body := body;
     t_steps := steps;
     t_acceptance_criteria := acceptance_criteria;
     t_complexity := complexity;
     t_url := i_url issue;
     t_queued_at := now;
     t_platform := platform pw;
     t_repository := repository pw;
     t_project_id := project_id pw;
     t_project_name := project_name pw;
     t_project_type := project_type pw;
     t_project_path := project_path pw;
     t_test_command := c_test_command (project_config pw);
     t_build_command := c_build_command (project_config pw);
     t_lint_command := c_lint_command (project_config pw);
     t_format_command := c_format_command (project_config pw) |}.

(** ** The outside world *)

(** Exceptions deriving from [Exception] that the code tells apart, and
    [OtherError] for every other one. *)
Inductive exn :=
  | PermissionError
  | RequestException
  | TimeoutExpired
  | IndexError
  | OtherError.

Inductive LogLevel := Info | Warning | Error.

(** What a file holds: a queue artifact is the JSON dump of a task, the
    dedup file the JSON dump of the processed set (in no fixed order). *)
Inductive FileContent :=
  | TaskFile (t : Task)
  | ProcessedFile (keys : gset string).

(** Observable steps of a run, in program order.  [EvLog] is a call of
    [logger.info/warning/error] (the text is not modelled; [logger.debug] is
    silent at the configured INFO level).  [EvFetch] marks the entry of
    [fetch_ready_issues] for a project.  The others are attempts to change
    something outside the process. *)
Inductive Event :=
  | EvLog (lvl : LogLevel)
  | EvFetch (pid : string)
  | EvMkdir (path : string)
  | EvWriteText (path : string) (content : FileContent)
  | EvGhIssueEdit (issue : Z) (repo_name flag label : string)
  | EvGitlabPut (project issue : Z) (labels : string)
  | EvSleep.

(** The answers of the outside world.  Every oracle takes the number of
    questions asked so far, so that the same call may be answered
    differently at different times (a disk that fills up, a tracker that
    comes back). *)
Record Env := mkEnv {
  utcnow : nat → string;
  home : string;
  http_github_issues : nat → string → string → string → exn + list GithubItem;
  http_gitlab_project : nat → string → string → exn + Z;
  http_gitlab_issues : nat → Z → string → exn + list GitlabItem;
  http_gitlab_put : nat → Z → Z → string → string → exn + Z;
  run_gh_issue_edit : nat → Z → string → string → string → exn + Z;
  fs_mkdir : nat → string → option exn;
  fs_write_text : nat → string → option exn
}.

(** The state a run threads through: the logical clock of the oracles, the
    in-memory [self.processed_issues], the files written so far, and the
    trace. *)
Record World := mkWorld {
  tick : nat;
  processed_issues : gset string;
  files : gmap string FileContent;
  trace : list Event
}.

(** ** A state and exception monad *)

Inductive Result (A : Type) :=
  | Ok (a : A)
  | Raise (e : exn).
Arguments Ok {A} a.
Arguments Raise {A} e.

Definition M (A : Type) : Type := World → Result A * World.

Definition ret {A} (a : A) : M A := λ w, (Ok a, w).

Definition bind {A B} (m : M A) (k : A → M B) : M B :=
  λ w, match m w with
       | (Ok a, w') => k a w'
       | (Raise e, w') => (Raise e, w')
       end.

Definition raise {A} (e : exn) : M A := λ w, (Raise e, w).

(** [try: m  except <handles>: handler]; an exception the clause does not
    name passes through. *)
Definition try_except {A} (m : M A) (handles : exn → bool) (handler : exn → M A) : M A :=
  λ w, match m w with
       | (Ok a, w') => (Ok a, w')
       | (Raise e, w') => if handles e then handler e w' else (Raise e, w')
       end.

(** [except Exception] *)
Definition any_exception (e : exn) : bool := true.

Global Instance M_ret : MRet M := @ret.
Global Instance M_bind : MBind M := λ A B k m, bind m k.

(** [for x in l: body x] *)
Fixpoint for_each {A} (l : list A) (body : A → M unit) : M unit :=
  match l with
  | [] => ret tt
  | x :: xs => body x ;; for_each xs body
  end.

Definition emit (e : Event) : M unit :=
  λ w, (Ok tt, {| tick := tick w; processed_issues := processed_issues w;
                  files := files w; trace := trace w ++ [e] |}).

Definition logger (lvl : LogLevel) : M unit := emit (EvLog lvl).

(** Ask the outside world one question. *)
Definition ask {A} (oracle : nat → A) : M A :=
  λ w, (Ok (oracle (tick w)),
        {| tick := S (tick w); processed_issues := processed_issues w;
           files := files w; trace := trace w |}).

(** A call that returns a value or raises. *)
Definition call {A} (oracle : nat → exn + A) : M A :=
  r ← ask oracle;
  match r with
  | inl e => raise e
  | inr a => ret a
  end.

(** [l[-k]] for k = 1, 2; [IndexError] when the list is too short. *)
Definition index_from_end (k : nat) (l : list string) : M string :=
  match rev l !! (k - 1)%nat with
  | Some x => ret x
  | None => raise IndexError
  end.

(** ** The watcher, over a fixed outside world *)

Section Watcher.

Variable env : Env.

(** *** File system and in-memory set *)

(** [dir / name], for a [dir] without trailing slash and a relative [name]. *)
Definition path_join (dir name : string) : string := dir +:+ "/" +:+ name.

(** [Path.home() / '.config' / 'lazy_birtd'] *)
Definition config_dir : string :=
  path_join (path_join (home env) ".config") "lazy_birtd".

(** [path.mkdir(parents=True, exist_ok=True)] *)
Definition mkdir (path : string) : M unit :=
  r ← ask (λ n, fs_mkdir env n path);
  match r with
  | Some e => raise e
  | None => emit (EvMkdir path)
  end.

Definition store_file (path : string) (content : FileContent) : M unit :=
  λ w, (Ok tt, {| tick := tick w; processed_issues := processed_issues w;
                  files := <[path := content]> (files w); trace := trace w |}).

(** [path.write_text(content)]; a write that raises leaves the file as it
    was. *)
Definition write_text (path : string) (content : FileContent) : M unit :=
  r ← ask (λ n, fs_write_text env n path);
  match r with
  | Some e => raise e
  | None => store_file path content;; emit (EvWriteText path content)
  end.

Definition get_processed : M (gset string) := λ w, (Ok (processed_issues w), w).

(** [self.processed_issues.add(key)] *)
Definition add_processed (key : string) : M unit :=
  λ w, (Ok tt, {| tick := tick w; processed_issues := processed_issues w ∪ {[key]};
                  files := files w; trace := trace w |}).

(** *** [ProjectWatcher.fetch_*] *)

Definition repo_parts (pw : ProjectWatcher) : list string :=
  PyStr.split PyStr.slash
    (PyStr.rstrip_with (PyStr.is_char PyStr.slash) (repository pw)).

Definition github_issue (item : GithubItem) : Issue :=
  {| i_id := gh_number item;
     i_title := gh_title item;
     i_body := default "" (gh_body item);
     i_labels := gh_labels item;
     i_url := gh_html_url item;
     i_created_at := gh_created_at item |}.

Definition gitlab_issue (item : GitlabItem) : Issue :=
  {| i_id := gl_iid item;
     i_title := gl_title item;
     i_body := default "" (gl_description item);
     i_labels := gl_labels item;
     i_url := gl_web_url item;
     i_created_at := gl_created_at item |}.

Definition fetch_github_issues (pw : ProjectWatcher) : M (list Issue) :=
  owner ← index_from_end 2 (repo_parts pw);
  repo ← index_from_end 1 (repo_parts pw);
  items ← call (λ n, http_github_issues env n owner repo (token pw));
  ret (github_issue <$> filter (λ item, gh_pull_request item = false) items).

(** [not project_id] for the optional numeric id of the configuration. *)
Definition configured_id (cfg : ProjectConfig) : option Z :=
  match c_project_id cfg with
  | Some n => if n =? 0 then None else Some n
  | None => None
  end.

Definition gitlab_list_issues (pw : ProjectWatcher) (gitlab_id : Z) : M (list Issue) :=
  items ← call (λ n, http_gitlab_issues env n gitlab_id (token pw));
  ret (gitlab_issue <$> items).

Definition fetch_gitlab_issues (pw : ProjectWatcher) : M (list Issue) :=
  match configured_id (project_config pw) with
  | Some gitlab_id => gitlab_list_issues pw gitlab_id
  | None =>
      let project_path_str := PyStr.join "/" (PyStr.last2 (repo_parts pw)) in
      looked_up ←
        try_except
          (gitlab_id ← call (λ n, http_gitlab_project env n project_path_str (token pw));
           ret (Some gitlab_id))
          any_exception
          (λ _, logger Error;; ret None);
      match looked_up with
      | Some gitlab_id => gitlab_list_issues pw gitlab_id
      | None => ret []
      end
  end.

(** Both [except] clauses log an error and return the empty list. *)
Definition fetch_ready_issues (pw : ProjectWatcher) : M (list Issue) :=
  emit (EvFetch (project_id pw));;
  try_except
    (if String.eqb (platform pw) "github" then fetch_github_issues pw
     else if String.eqb (platform pw) "gitlab" then fetch_gitlab_issues pw
     else logger Error;; ret [])
    any_exception
    (λ _, logger Error;; ret []).

(** *** [ProjectWatcher.parse_issue] and the label transition *)

Definition parse_issue (pw : ProjectWatcher) (issue : Issue) : M Task :=
  now ← ask (utcnow env);
  ret (parse_issue_at now pw issue).

(** [subprocess.run(['gh', 'issue', 'edit', str(id), '--repo', repo_name,
    flag, label], ...)], giving the return code. *)
Definition gh_issue_edit (issue : Z) (repo_name flag label : string) : M Z :=
  emit (EvGhIssueEdit issue repo_name flag label);;
  call (λ n, run_gh_issue_edit env n issue repo_name flag label).

Definition update_github_labels (pw : ProjectWatcher) (issue : Issue) : M unit :=
  owner ← index_from_end 2 (repo_parts pw);
  repo ← index_from_end 1 (repo_parts pw);
  let repo_name := owner +:+ "/" +:+ repo in
  try_except
    (returncode ← gh_issue_edit (i_id issue) repo_name "--remove-label" "ready";
     (if returncode =? 0 then ret tt else logger Warning);;
     returncode ← gh_issue_edit (i_id issue) repo_name "--add-label" "in-queue";
     if returncode =? 0 then logger Info else logger Warning)
    any_exception
    (λ _, logger Error).

Definition update_gitlab_labels (pw : ProjectWatcher) (issue : Issue) : M unit :=
  match configured_id (project_config pw) with
  | None => logger Warning
  | Some gitlab_id =>
      let current_labels :=
        filter (λ l, l ≠ "ready") (i_labels issue) ++ ["processing"] in
      let labels := PyStr.join "," current_labels in
      emit (EvGitlabPut gitlab_id (i_id issue) labels);;
      status_code ← call (λ n, http_gitlab_put env n gitlab_id (i_id issue) labels (token pw));
      if bool_decide (status_code ∈ [200; 201]) then ret tt else logger Warning
  end.

Definition update_issue_labels (pw : ProjectWatcher) (issue : Issue) : M unit :=
  try_except
    (if String.eqb (platform pw) "github" then update_github_labels pw issue
     else if String.eqb (platform pw) "gitlab" then update_gitlab_labels pw issue
     else ret tt)
    any_exception
    (λ _, logger Error).

(** *** [IssueWatcher] *)

Definition is_permission_error (e : exn) : bool :=
  match e with PermissionError => true | _ => false end.

Definition primary_queue_dir : string := "/var/lib/lazy_birtd/queue".
Definition fallback_queue_dir : string := path_join config_dir "queue".

Definition task_file_name (parsed : Task) : string :=
  let task_id := t_project_id parsed +:+ "-" +:+ PyStr.of_int (t_issue_id parsed) in
  "task-" +:+ task_id +:+ ".json".

Definition queue_task (parsed : Task) (pw : ProjectWatcher) : M unit :=
  queue_dir ←
    try_except
      (mkdir primary_queue_dir;; ret primary_queue_dir)
      is_permission_error
      (λ _, mkdir fallback_queue_dir;; logger Warning;; ret fallback_queue_dir);
  let task_file := path_join queue_dir (task_file_name parsed) in
  try_except
    (write_text task_file (TaskFile parsed);; logger Info)
    any_exception
    (λ e, logger Error;; raise e).

Definition processed_file : string :=
  path_join (path_join config_dir "data") "processed_issues.json".

Definition save_processed_issues : M unit :=
  mkdir (path_join config_dir "data");;
  keys ← get_processed;
  try_except
    (write_text processed_file (ProcessedFile keys))
    any_exception
    (λ _, logger Error).

(** [f"{project_watcher.project_id}:{issue['id']}"] *)
Definition issue_key (pw : ProjectWatcher) (issue : Issue) : string :=
  project_id pw +:+ ":" +:+ PyStr.of_int (i_id issue).

(** The body of [for issue in new_issues]. *)
Definition process_issue (pw : ProjectWatcher) (issue : Issue) : M unit :=
  logger Info;;
  parsed ← parse_issue pw issue;
  queue_task parsed pw;;
  update_issue_labels pw issue;;
  add_processed (issue_key pw issue);;
  save_processed_issues;;
  logger Info.

(** The filter loop; the set does not change while it runs. *)
Definition new_issues (processed : gset string) (pw : ProjectWatcher)
    (issues : list Issue) : list Issue :=
  filter (λ issue, issue_key pw issue ∉ processed) issues.

(** What [run] does with the list a fetch returned: filter, then process
    each new issue. *)
Definition process_fetched (pw : ProjectWatcher) (issues : list Issue) : M unit :=
  processed ← get_processed;
  let new := new_issues processed pw issues in
  (if bool_decide (new = []) then ret tt else logger Info);;
  for_each new (process_issue pw).

(** The statements under [try] in the body of
    [for project_watcher in self.project_watchers]. *)
Definition poll_project_body (pw : ProjectWatcher) : M unit :=
  issues ← fetch_ready_issues pw;
  process_fetched pw issues.

(** The loop body with its [except Exception]. *)
Definition poll_project (pw : ProjectWatcher) : M unit :=
  try_except (poll_project_body pw) any_exception (λ _, logger Error).

(** One iteration of [while True]: every project in sequence, then
    [time.sleep].  The [total_new_issues] counter only feeds a
    [logger.debug] call and is left out. *)
Definition poll_round (project_watchers : list ProjectWatcher) : M unit :=
  for_each project_watchers poll_project;;
  emit EvSleep.

End Watcher.

(** * Vocabulary of the statements *)

(** ** Sections of a body *)

(** The list-item lines of a run of lines, trimmed, in order. *)
Definition section_items (lines : list string) : list string :=
  filter (λ s, is_list_item s = true) (PyStr.strip <$> lines).

Definition no_header (lines : list string) : Prop :=
  Forall (λ line, is_section_header line = false) lines.

(** Every header among [lines] names a section other than [name]. *)
Definition not_reopened (name : string) (lines : list string) : Prop :=
  Forall (λ line, is_section_header line = true → header_name line ≠ name) lines.

(** [lines] is empty or begins with a header. *)
Definition at_boundary (lines : list string) : Prop :=
  match lines with
  | [] => True
  | line :: _ => is_section_header line = true
  end.

(** A body given line by line. *)
Definition body_of_lines (lines : list string) : string :=
  PyStr.join (String PyStr.nl "") lines.

(** The spec's wording of a level-2 header: the trimmed line starts with
    exactly two header markers. *)
Definition exactly_two_markers (line : string) : bool :=
  PyStr.startswith "##" (PyStr.strip line)
  && negb (PyStr.startswith "###" (PyStr.strip line)).

Definition is_digit_1_9 (c : ascii) : bool :=
  ((49 <=? N_of_ascii c) && (N_of_ascii c <=? 57))%N.

(** The spec's wording of a list-item line: a digit 1-9 followed by a
    period, or a dash, an asterisk, or a box marker, at the start. *)
Definition spec_list_item (s : string) : bool :=
  match s with
  | EmptyString => false
  | String c rest =>
      (is_digit_1_9 c && PyStr.startswith "." rest)
      || Ascii.eqb "-" c || Ascii.eqb "*" c
      || PyStr.startswith "[ ]" s || PyStr.startswith "[x]" s
  end.

(** A task with its [queued_at] field replaced. *)
Definition with_queued_at (q : string) (t : Task) : Task :=
  {| t_issue_id := t_issue_id t;
     t_title := t_title t;
     t_body := t_body t;
     t_steps := t_steps t;
     t_acceptance_criteria := t_acceptance_criteria t;
     t_complexity := t_complexity t;
     t_url := t_url t;
     t_queued_at := q;
     t_platform := t_platform t;
     t_repository := t_repository t;
     t_project_id := t_project_id t;
     t_project_name := t_project_name t;
     t_project_type := t_project_type t;
     t_project_path := t_project_path t;
     t_test_command := t_test_command t;
     t_build_command := t_build_command t;
     t_lint_command := t_lint_command t;
     t_format_command := t_format_command t |}.

(** The world after one question has been asked and nothing else happened. *)
Definition asked_once (w : World) : World :=
  {| tick := S (tick w); processed_issues := processed_issues w;
     files := files w; trace := trace w |}.

(** The value a computation returned, if it did not raise. *)
Definition returned {A} (r : Result A) : option A :=
  match r with
  | Ok a => Some a
  | Raise _ => None
  end.

(** ** Reading a trace *)

Definition task_written (e : Event) : option Task :=
  match e with
  | EvWriteText _ (TaskFile t) => Some t
  | _ => None
  end.

(** The queue artifacts written, oldest first. *)
Definition published (evs : list Event) : list Task := omap task_written evs.

Definition fetch_of (e : Event) : option string :=
  match e with
  | EvFetch pid => Some pid
  | _ => None
  end.

(** The projects polled, in order. *)
Definition fetched (evs : list Event) : list string := omap fetch_of evs.

Definition not_fetch (e : Event) : Prop := fetch_of e = None.
Definition not_task_write (e : Event) : Prop := task_written e = None.

Definition is_label_update (e : Event) : Prop :=
  match e with
  | EvGhIssueEdit _ _ _ _ | EvGitlabPut _ _ _ => True
  | _ => False
  end.

(** Issues in ascending creation order: each one is created no later than
    every one after it (timestamps of one tracker compare as strings). *)
Definition ascending_created (issues : list Issue) : Prop :=
  StronglySorted (λ a b, String.le (i_created_at a) (i_created_at b)) issues.

(** ** Relations between the world before and after a computation *)

(** [m] relates every world it starts from to the one it leaves. *)
Definition respects {A} (R : relation World) (m : M A) : Prop :=
  ∀ w, R w (m w).2.

(** Only events of a given kind were appended to the trace. *)
Definition appends (allowed : Event → Prop) : relation World :=
  λ w w', ∃ evs, trace w' = trace w ++ evs ∧ Forall allowed evs.

(** An observation of the world is unchanged. *)
Definition same {B} (f : World → B) : relation World :=
  λ w w', f w' = f w.

(** The world after a call of the logger. *)
Definition logged (lvl : LogLevel) (w : World) : World :=
  {| tick := tick w; processed_issues := processed_issues w;
     files := files w; trace := trace w ++ [EvLog lvl] |}.

(** The world in which [process_issue] calls [queue_task]: the start of the
    issue has been logged and the clock read. *)
Definition before_queue (w : World) : World := asked_once (logged Info w).

(** A computation that returns from every world. *)
Definition never_raises {A} (m : M A) : Prop :=
  ∀ w, ∃ a, (m w).1 = Ok a.

(** The dedup keys of a list of issues of one project. *)
Definition keys_of (pw : ProjectWatcher) (issues : list Issue) : gset string :=
  list_to_set (issue_key pw <$> issues).

(** ** Sample data *)

Module Sample.

Definition cfg : ProjectConfig :=
  {| c_project_id := None; c_test_command := Some "make test";
     c_build_command := None; c_lint_command := None; c_format_command := None |}.

Definition github_watcher : ProjectWatcher :=
  {| project_config := cfg; project_id := "game"; project_name := "Game";
     project_type := "godot"; project_path := "/srv/game"; platform := "github";
     repository := "https://github.com/owner/game"; token := "secret" |}.

Definition gitlab_watcher : ProjectWatcher :=
  {| project_config := cfg; project_id := "tool"; project_name := "Tool";
     project_type := "python"; project_path := "/srv/tool"; platform := "gitlab";
     repository := "https://gitlab.com/group/tool"; token := "secret" |}.

Definition steps_body : string :=
  body_of_lines ["## Detailed Steps"; "1. do X"; "- extra note"].

Definition nested_body : string :=
  body_of_lines ["## Detailed Steps"; "1. a"; "### Notes"; "- b"].

Definition issue (n : Z) (created_at : string) (labels : list string) (body : string) : Issue :=
  {| i_id := n; i_title := "Issue"; i_body := body; i_labels := labels;
     i_url := "https://tracker/issue"; i_created_at := created_at |}.

Definition first_issue : Issue :=
  issue 1 "2024-01-01T00:00:00Z" ["ready"; "complex"] steps_body.

Definition second_issue : Issue :=
  issue 2 "2024-02-01T00:00:00Z" ["ready"; "bug"] "free text".

Definition empty_world : World :=
  {| tick := 0; processed_issues := ∅; files := ∅; trace := [] |}.

(** A clock that shows the number of questions asked so far. *)
Definition clock (n : nat) : string := "2024-03-01T00:00:" +:+ PyStr.of_int (Z.of_nat n).

(** A world in which everything succeeds and the trackers list nothing. *)
Definition quiet_env : Env :=
  {| utcnow := clock;
     home := "/home/bird";
     http_github_issues := λ _ _ _ _, inr [];
     http_gitlab_project := λ _ _ _, inr 42;
     http_gitlab_issues := λ _ _ _, inr [];
     http_gitlab_put := λ _ _ _ _ _, inr 200;
     run_gh_issue_edit := λ _ _ _ _ _, inr 0;
     fs_mkdir := λ _ _, None;
     fs_write_text := λ _ _, None |}.

(** A disk that refuses every write until three questions have been asked,
    and accepts them afterwards. *)
Definition flaky_env : Env :=
  {| utcnow := clock;
     home := "/home/bird";
     http_github_issues := λ _ _ _ _, inr [];
     http_gitlab_project := λ _ _ _, inr 42;
     http_gitlab_issues := λ _ _ _, inr [];
     http_gitlab_put := λ _ _ _ _ _, inr 200;
     run_gh_issue_edit := λ _ _ _ _ _, inr 0;
     fs_mkdir := λ _ _, None;
     fs_write_text := λ n _, if (n <? 3)%nat then Some OtherError else None |}.

(** The tracker of each sample project lists one ready issue; the disk
    refuses the artifact of the GitHub project and accepts everything
    else. *)
Definition half_broken_env : Env :=
  {| utcnow := clock;
     home := "/home/bird";
     http_github_issues := λ _ _ _ _,
       inr [mkGithubItem 1 "Issue" (Some steps_body) ["ready"] "https://tracker/issue"
              "2024-01-01T00:00:00Z" false];
     http_gitlab_project := λ _ _ _, inr 42;
     http_gitlab_issues := λ _ _ _,
       inr [mkGitlabItem 7 "Issue" None ["ready"; "simple"] "https://tracker/issue"
              "2024-01-02T00:00:00Z"];
     http_gitlab_put := λ _ _ _ _ _, inr 200;
     run_gh_issue_edit := λ _ _ _ _ _, inr 0;
     fs_mkdir := λ _ _, None;
     fs_write_text := λ _ path,
       if String.eqb path "/var/lib/lazy_birtd/queue/task-game-1.json"
       then Some OtherError else None |}.

(** A machine on which no directory can be created. *)
Definition readonly_env : Env :=
  {| utcnow := clock;
     home := "/home/bird";
     http_github_issues := λ _ _ _ _, inr [];
     http_gitlab_project := λ _ _ _, inr 42;
     http_gitlab_issues := λ _ _ _, inr [];
     http_gitlab_put := λ _ _ _ _ _, inr 200;
     run_gh_issue_edit := λ _ _ _ _ _, inr 0;
     fs_mkdir := λ _ _, Some PermissionError;
     fs_write_text := λ _ _, None |}.

(** A machine on which the system-wide queue directory exists but files
    cannot be written into it. *)
Definition unwritable_queue_env : Env :=
  {| utcnow := clock;
     home := "/home/bird";
     http_github_issues := λ _ _ _ _, inr [];
     http_gitlab_project := λ _ _ _, inr 42;
     http_gitlab_issues := λ _ _ _, inr [];
     http_gitlab_put := λ _ _ _ _ _, inr 200;
     run_gh_issue_edit := λ _ _ _ _ _, inr 0;
     fs_mkdir := λ _ _, None;
     fs_write_text := λ _ path,
       if PyStr.startswith "/var/lib/" path then Some PermissionError else None |}.

End Sample.

(** * Start-up *)

(** ** [IssueWatcher.load_processed_issues] *)

(** The keys of the task dict. *)
Definition task_field_names : gset string :=
  list_to_set
    ["issue_id"; "title"; "body"; "steps"; "acceptance_criteria"; "complexity"; "url";
     "queued_at"; "platform"; "repository"; "project_id"; "project_name"; "project_type";
     "project_path"; "test_command"; "build_command"; "lint_command"; "format_command"].

(** [set(json.loads(text))] for the text of a file: the elements of a
    dumped list, the keys of a dumped dict. *)
Definition set_of_content (content : FileContent) : gset string :=
  match content with
  | ProcessedFile keys => keys
  | TaskFile _ => task_field_names
  end.

Definition get_files : M (gmap string FileContent) := λ w, (Ok (files w), w).

(** [processed_file.exists()] looks at the files of the world;
    [read_json] tells whether reading and decoding the file raises. *)
Definition load_processed_issues (env : Env) (read_json : nat → string → option exn)
    : M (gset string) :=
  mkdir env (path_join (config_dir env) "data");;
  on_disk ← get_files;
  match on_disk !! processed_file env with
  | Some content =>
      try_except
        (r ← ask (λ n, read_json n (processed_file env));
         match r with
         | Some e => raise e
         | None => ret (set_of_content content)
         end)
        any_exception
        (λ _, logger Warning;; ret ∅)
  | None => ret ∅
  end.

(** ** Configuration *)

(** One entry of the [projects] list, a dict; a field is [None] when the
    key is absent.  The commands may also be present and null.  Values
    have the types the configuration documents. *)
Record ProjectEntry := mkProjectEntry {
  e_id : option string;
  e_name : option string;
  e_type : option string;
  e_path : option string;
  e_repository : option string;
  e_git_platform : option string;
  e_test_command : option (option string);
  e_build_command : option (option string);
  e_lint_command : option (option string);
  e_format_command : option (option string);
  e_project_id : option Z;
  e_enabled : option bool
}.

(** The [project] dict of the legacy format. *)
Record LegacyProject := mkLegacyProject {
  lp_name : option string;
  lp_type : option string;
  lp_path : option string
}.

(** The keys of the configuration that [load_projects] reads. *)
Record Config := mkConfig {
  cfg_projects : option (list ProjectEntry);
  cfg_project : option LegacyProject;
  cfg_repository : option string;
  cfg_git_platform : option string;
  cfg_test_command : option (option string);
  cfg_build_command : option (option string);
  cfg_lint_command : option (option string);
  cfg_format_command : option (option string)
}.

(** The secrets directory: for a file name, [None] when there is no such
    file, else what reading it gives.  It does not change while one token
    is loaded. *)
Definition Secrets : Type := string → option (exn + string).

(** ** A log-and-outcome monad for the start-up code *)

(** Exceptions of the start-up code. *)
Inductive init_error :=
  | KeyError (key : string)
  | FileNotFoundError
  | ValueError
  | ReadError (e : exn).

(** How a start-up step ends: with a value, with [sys.exit(code)], which
    [except Exception] does not catch, or with an exception. *)
Inductive Outcome (A : Type) :=
  | Started (a : A)
  | SysExit (code : Z)
  | Uncaught (e : init_error).
Arguments Started {A} a.
Arguments SysExit {A} code.
Arguments Uncaught {A} e.

(** A step gives the log calls it made and its outcome. *)
Definition Boot (A : Type) : Type := list LogLevel * Outcome A.

Definition boot_ret {A} (a : A) : Boot A := ([], Started a).

Definition boot_bind {A B} (m : Boot A) (k : A → Boot B) : Boot B :=
  match m with
  | (logs, Started a) => let (logs', out) := k a in (logs ++ logs', out)
  | (logs, SysExit code) => (logs, SysExit code)
  | (logs, Uncaught e) => (logs, Uncaught e)
  end.

Global Instance Boot_ret : MRet Boot := @boot_ret.
Global Instance Boot_bind : MBind Boot := λ A B k m, boot_bind m k.

Definition boot_log (lvl : LogLevel) : Boot unit := ([lvl], Started tt).
Definition boot_raise {A} (e : init_error) : Boot A := ([], Uncaught e).
Definition boot_exit {A} (code : Z) : Boot A := ([], SysExit code).

(** [try: m  except Exception as e: handler e] *)
Definition boot_try {A} (m : Boot A) (handler : init_error → Boot A) : Boot A :=
  match m with
  | (logs, Uncaught e) => let (logs', out) := handler e in (logs ++ logs', out)
  | other => other
  end.

(** [d[key]] *)
Definition require (key : string) (value : option string) : Boot string :=
  match value with
  | Some v => boot_ret v
  | None => boot_raise (KeyError key)
  end.

Section Boot.

(** [str(Path(p))], the normal form of a path. *)
Variable path_str : string → string.

Variable secrets : Secrets.

Definition token_exists (name : string) : bool :=
  match secrets name with Some _ => true | None => false end.

(** [ProjectWatcher.load_token] *)
Definition load_token (project_id platform : string) : Boot string :=
  let token_file := project_id +:+ "_token" in
  let token_file := if token_exists token_file then token_file else platform +:+ "_token" in
  let token_file := if token_exists token_file then token_file else "api_token" in
  match secrets token_file with
  | None =>
      boot_log Error;; boot_log Error;; boot_log Error;;
      boot_raise FileNotFoundError
  | Some content =>
      boot_try
        (match content with
         | inl e => boot_raise (ReadError e)
         | inr text =>
             let token := PyStr.strip text in
             if PyStr.is_empty token then boot_raise ValueError else boot_ret token
         end)
        (λ e, boot_log Error;; boot_raise e)
  end.

(** The [project_config.get(...)] reads of the running watcher. *)
Definition config_of_entry (project : ProjectEntry) : ProjectConfig :=
  {| c_project_id := e_project_id project;
     c_test_command := mjoin (e_test_command project);
     c_build_command := mjoin (e_build_command project);
     c_lint_command := mjoin (e_lint_command project);
     c_format_command := mjoin (e_format_command project) |}.

(** [ProjectWatcher.__init__] *)
Definition ProjectWatcher_init (project_config : ProjectEntry) : Boot ProjectWatcher :=
  project_id ← require "id" (e_id project_config);
  project_name ← require "name" (e_name project_config);
  project_type ← require "type" (e_type project_config);
  path ← require "path" (e_path project_config);
  platform ← require "git_platform" (e_git_platform project_config);
  repository ← require "repository" (e_repository project_config);
  token ← load_token project_id platform;
  boot_log Info;; boot_log Info;;
  boot_ret {| project_config := config_of_entry project_config;
              project_id := project_id;
              project_name := project_name;
              project_type := project_type;
              project_path := path_str path;
              platform := platform;
              repository := repository;
              token := token |}.

(** [[f for f in required if f not in project]] *)
Definition missing_fields (project : ProjectEntry) : list string :=
  (if e_id project is None then ["id"] else [])
  ++ (if e_name project is None then ["name"] else [])
  ++ (if e_type project is None then ["type"] else [])
  ++ (if e_path project is None then ["path"] else [])
  ++ (if e_repository project is None then ["repository"] else [])
  ++ (if e_git_platform project is None then ["git_platform"] else [])
  ++ (if e_test_command project is None then ["test_command"] else []).

(** [project.get('enabled', True)] *)
Definition enabled (project : ProjectEntry) : bool := default true (e_enabled project).

(** The body of [for project in projects]. *)
Definition load_entry (watchers : list ProjectWatcher) (project : ProjectEntry)
    : Boot (list ProjectWatcher) :=
  if negb (enabled project) then
    _ ← require "id" (e_id project);
    boot_log Info;;
    boot_ret watchers
  else if bool_decide (missing_fields project ≠ []) then
    boot_log Error;;
    boot_ret watchers
  else
    boot_try
      (watcher ← ProjectWatcher_init project;
       boot_ret (watchers ++ [watcher]))
      (λ _, boot_log Error;; boot_ret watchers).

Fixpoint load_entries (projects : list ProjectEntry) (watchers : list ProjectWatcher)
    : Boot (list ProjectWatcher) :=
  match projects with
  | [] => boot_ret watchers
  | project :: rest =>
      watchers' ← load_entry watchers project;
      load_entries rest watchers'
  end.

(** The project dict built from the legacy format. *)
Definition legacy_project (config : Config) : ProjectEntry :=
  {| e_id := Some "default";
     e_name := Some (default "Default Project" (cfg_project config ≫= lp_name));
     e_type := Some (default "godot" (cfg_project config ≫= lp_type));
     e_path := Some (default "." (cfg_project config ≫= lp_path));
     e_repository := Some (default "" (cfg_repository config));
     e_git_platform := Some (default "github" (cfg_git_platform config));
     e_test_command := Some (default (Some "") (cfg_test_command config));
     e_build_command := Some (mjoin (cfg_build_command config));
     e_lint_command := Some (mjoin (cfg_lint_command config));
     e_format_command := Some (mjoin (cfg_format_command config));
     e_project_id := None;
     e_enabled := Some true |}.

(** [IssueWatcher.load_projects] *)
Definition load_projects (config : Config) : Boot (list ProjectWatcher) :=
  watchers ←
    match cfg_projects config with
    | Some (project :: rest) =>
        boot_log Info;;
        load_entries (project :: rest) []
    | _ =>
        if bool_decide (is_Some (cfg_project config) ∨ is_Some (cfg_repository config)) then
          boot_log Info;;
          boot_try
            (watcher ← ProjectWatcher_init (legacy_project config);
             boot_ret [watcher])
            (λ _, boot_log Error;; boot_exit 1)
        else
          boot_log Error;; boot_log Error;; boot_log Error;;
          boot_exit 1
    end;
  if bool_decide (watchers = []) then
    boot_log Error;;
    boot_exit 1
  else boot_ret watchers.

End Boot.

(** * Further vocabulary *)

(** [c in s] for a character. *)
Fixpoint has_char (c : ascii) (s : string) : bool :=
  match s with
  | EmptyString => false
  | String a s' => Ascii.eqb c a || has_char c s'
  end.

(** A section entry that the lines of a body justify: the name is the
    non-empty name of a header line, and every item is the trimmed form of
    a list-item line that is not a header. *)
Definition justified_section (lines : list string) (name : string)
    (items : list string) : Prop :=
  name ≠ ""
  ∧ (∃ line, line ∈ lines ∧ is_section_header line = true ∧ header_name line = name)
  ∧ Forall (λ s, is_list_item s = true
                 ∧ ∃ line, line ∈ lines ∧ is_section_header line = false
                           ∧ s = PyStr.strip line) items.

(** What holds of the parser's locals after any number of lines of [all]. *)
Definition parse_inv (all : list string) (st : parse_state) : Prop :=
  (∀ name items, sections st !! name = Some items → justified_section all name items)
  ∧ (∀ name, current_section st = Some name → name ≠ "" →
             ∃ line, line ∈ all ∧ is_section_header line = true ∧ header_name line = name)
  ∧ Forall (λ s, is_list_item s = true
                 ∧ ∃ line, line ∈ all ∧ is_section_header line = false
                           ∧ s = PyStr.strip line) (current_content st).

(** The dedup key an artifact stands for. *)
Definition task_key (t : Task) : string :=
  t_project_id t +:+ ":" +:+ PyStr.of_int (t_issue_id t).


(** An event that changes the file system. *)
Definition is_disk_change (e : Event) : Prop :=
  match e with
  | EvMkdir _ | EvWriteText _ _ => True
  | _ => False
  end.

Global Instance is_label_update_dec e : Decision (is_label_update e).
Proof. destruct e; simpl; apply _. Defined.

(** The label updates attempted, in order. *)
Definition label_updates (evs : list Event) : list Event :=
  filter is_label_update evs.

(** The trace grew, and the processed set grew by exactly the keys of the
    artifacts written meanwhile. *)
Definition accounted : relation World :=
  λ w w', ∃ evs, trace w' = trace w ++ evs
                 ∧ processed_issues w'
                   = processed_issues w ∪ list_to_set (task_key <$> published evs).

(** No artifact was written twice for one key, and every artifact written
    has its key in the processed set. *)
Definition published_once (w : World) : Prop :=
  NoDup (task_key <$> published (trace w))
  ∧ ∀ t, t ∈ published (trace w) → task_key t ∈ processed_issues w.

(** ** The first iterations of the main loop *)

(** [n] iterations of [while True] in [IssueWatcher.run]: a round, and the
    handler of the outer [except Exception], which logs and sleeps. *)
Fixpoint run_iterations (env : Env) (project_watchers : list ProjectWatcher)
    (n : nat) : M unit :=
  match n with
  | O => ret tt
  | S n' =>
      try_except (poll_round env project_watchers) any_exception
        (λ _, logger Error;; logger Info;; emit EvSleep);;
      run_iterations env project_watchers n'
  end.

(** A repository setting that names [owner]/[repo]: the two come last,
    after nothing or after a prefix that ends in a slash, and may be
    followed by slashes only.  Both forms the configuration allows, full
    URL and [owner/repo], are of this shape. *)
Definition names_repository (setting owner repo : string) : Prop :=
  ∃ prefix slashes,
    setting = prefix +:+ owner +:+ "/" +:+ repo +:+ slashes
    ∧ (prefix = "" ∨ ∃ base, prefix = base +:+ "/")
    ∧ has_char PyStr.slash owner = false
    ∧ has_char PyStr.slash repo = false
    ∧ repo ≠ ""
    ∧ PyStr.lstrip_with (PyStr.is_char PyStr.slash) slashes = "".

(** The world after [fetch_ready_issues] has been entered for a project. *)
Definition fetch_marked (pid : string) (w : World) : World :=
  {| tick := tick w; processed_issues := processed_issues w;
     files := files w; trace := trace w ++ [EvFetch pid] |}.

(** The tracker entries that are not pull requests, as issues. *)
Definition github_issues_of (items : list GithubItem) : list Issue :=
  github_issue <$> filter (λ item, gh_pull_request item = false) items.

(** The label list [update_gitlab_labels] sends for an issue. *)
Definition gitlab_labels_sent (issue : Issue) : list string :=
  filter (λ l, l ≠ "ready") (i_labels issue) ++ ["processing"].

(** Every list a fetch returns has distinct dedup keys. *)
Definition fetch_distinct (env : Env) : Prop :=
  ∀ pw w issues,
    (fetch_ready_issues env pw w).1 = Ok issues → NoDup (issue_key pw <$> issues).

(** ** Start-up, declaratively *)

(** The token files tried, in order of preference. *)
Definition token_candidates (project_id platform : string) : list string :=
  [project_id +:+ "_token"; platform +:+ "_token"; "api_token"].

(** The first candidate that exists. *)
Definition chosen_token_file (secrets : Secrets) (project_id platform : string)
    : option string :=
  snd <$> list_find (λ name, token_exists secrets name = true)
            (token_candidates project_id platform).

(** What the content of the chosen file gives. *)
Definition token_of_content (content : exn + string) : Outcome string :=
  match content with
  | inl e => Uncaught (ReadError e)
  | inr text =>
      if PyStr.is_empty (PyStr.strip text) then Uncaught ValueError
      else Started (PyStr.strip text)
  end.

(** The watcher an entry of the [projects] list gives, if it gives one:
    the entry is enabled, has the required fields, and its watcher can be
    initialised. *)
Definition watcher_of (path_str : string → string) (secrets : Secrets)
    (project : ProjectEntry) : option ProjectWatcher :=
  if enabled project && bool_decide (missing_fields project = []) then
    match (ProjectWatcher_init path_str secrets project).2 with
    | Started watcher => Some watcher
    | _ => None
    end
  else None.

(** A disabled entry can be skipped only if it has an id to log. *)
Definition skippable (project : ProjectEntry) : Prop :=
  enabled project = false → is_Some (e_id project).

(** The watcher of the legacy format, given its token. *)
Definition legacy_watcher (path_str : string → string) (config : Config) (token : string)
    : ProjectWatcher :=
  {| project_config := config_of_entry (legacy_project config);
     project_id := "default";
     project_name := default "Default Project" (cfg_project config ≫= lp_name);
     project_type := default "godot" (cfg_project config ≫= lp_type);
     project_path := path_str (default "." (cfg_project config ≫= lp_path));
     platform := default "github" (cfg_git_platform config);
     repository := default "" (cfg_repository config);
     token := token |}.

(** The [projects] key is absent, or holds an empty list. *)
Definition no_projects (config : Config) : Prop :=
  cfg_projects config = None ∨ cfg_projects config = Some [].

Module BootSample.

Definition shared_token_only : Secrets :=
  λ name, if String.eqb name "api_token" then Some (inr " s3cret ") else None.

Definition entry (id : string) : ProjectEntry :=
  {| e_id := Some id; e_name := Some "Name"; e_type := Some "godot"; e_path := Some "/srv";
     e_repository := Some "owner/repo"; e_git_platform := Some "github";
     e_test_command := Some (Some "make test"); e_build_command := None;
     e_lint_command := None; e_format_command := None; e_project_id := None;
     e_enabled := None |}.

Definition disabled_entry : ProjectEntry :=
  mkProjectEntry (Some "off") None None None None None None None None None None (Some false).

Definition incomplete_entry : ProjectEntry :=
  mkProjectEntry (Some "half") (Some "Name") None None None None None None None None None None.

Definition nameless_disabled_entry : ProjectEntry :=
  mkProjectEntry None None None None None None None None None None None (Some false).

Definition config_of (entries : list ProjectEntry) : Config :=
  mkConfig (Some entries) None None None None None None None.

Definition legacy_config : Config :=
  mkConfig None None (Some "owner/repo") None None None None None.

End BootSample.

(** * Properties of the task parser *)

Section ParserFacts.

Implicit Types (st : parse_state) (line : string) (lines : list string).

Lemma truthy_Some name : truthy (Some name) = true ↔ name ≠ "".
Proof. destruct name; simpl; split; congruence. Qed.

Lemma parse_lines_app st l1 l2 :
  parse_lines st (l1 ++ l2) = parse_lines (parse_lines st l1) l2.
Proof. apply fold_left_app. Qed.

Lemma parse_lines_nil st : parse_lines st [] = st.
Proof. reflexivity. Qed.

Lemma parse_lines_cons st line lines :
  parse_lines st (line :: lines) = parse_lines (parse_line st line) lines.
Proof. reflexivity. Qed.

(** Inside an open section, lines that are not headers only append their
    list items. *)
Lemma parse_lines_content lines : ∀ secs name content,
  name ≠ "" → no_header lines →
  parse_lines (ParseState secs (Some name) content) lines
  = ParseState secs (Some name) (content ++ section_items lines).
Proof.
  induction lines as [|line lines IH]; intros secs name content Hname Hno.
  - unfold section_items. simpl. by rewrite app_nil_r.
  - apply Forall_cons in Hno as [Hline Hno].
    rewrite parse_lines_cons. unfold parse_line. rewrite Hline. simpl current_section.
    apply truthy_Some in Hname as Htr. rewrite Htr.
    unfold section_items. rewrite fmap_cons, filter_cons.
    destruct (is_list_item (PyStr.strip line)) eqn:Hitem; simpl.
    + rewrite IH by done. unfold section_items. by rewrite <- app_assoc.
    + by apply IH.
Qed.

(** Outside any section, lines that are not headers are ignored. *)
Lemma parse_lines_outside lines : ∀ st,
  truthy (current_section st) = false → no_header lines →
  parse_lines st lines = st.
Proof.
  induction lines as [|line lines IH]; intros st Hcur Hno; [done|].
  apply Forall_cons in Hno as [Hline Hno].
  rewrite parse_lines_cons. unfold parse_line. rewrite Hline, Hcur. by apply IH.
Qed.

Lemma save_section_other st k :
  current_section st ≠ Some k → save_section st !! k = sections st !! k.
Proof.
  intros Hne. unfold save_section. destruct (current_section st) as [name|]; [|done].
  destruct (truthy (Some name)); [|done].
  apply lookup_insert_ne. congruence.
Qed.

(** A key that is neither the open section nor the name of a later header
    keeps its entry. *)
Lemma parse_lines_untouched k lines : ∀ st,
  current_section st ≠ Some k → not_reopened k lines →
  save_section (parse_lines st lines) !! k = sections st !! k.
Proof.
  induction lines as [|line lines IH]; intros st Hcur Hre.
  - by apply save_section_other.
  - apply Forall_cons in Hre as [Hline Hre].
    rewrite parse_lines_cons, IH; [|..|done].
    + unfold parse_line. destruct (is_section_header line); simpl.
      * by apply save_section_other.
      * destruct (truthy (current_section st)); [|done].
        by destruct (is_list_item (PyStr.strip line)).
    + unfold parse_line. destruct (is_section_header line); simpl.
      * intros [= Heq]. by apply Hline.
      * destruct (truthy (current_section st)); [|done].
        by destruct (is_list_item (PyStr.strip line)).
Qed.

Lemma save_section_open secs name content :
  name ≠ "" →
  save_section (ParseState secs (Some name) content) = <[name := content]> secs.
Proof.
  intros Hname. unfold save_section. cbn [current_section sections current_content].
  by apply truthy_Some in Hname as ->.
Qed.

Lemma parse_line_header st h :
  is_section_header h = true →
  parse_line st h = ParseState (save_section st) (Some (header_name h)) [].
Proof. intros Hh. unfold parse_line. by rewrite Hh. Qed.

(** The extent of a section: from its header to the next header. *)
Lemma section_extent st pre h ls rest :
  is_section_header h = true → header_name h ≠ "" →
  no_header ls → at_boundary rest → not_reopened (header_name h) rest →
  save_section (parse_lines st (pre ++ h :: ls ++ rest)) !! header_name h
  = Some (section_items ls).
Proof.
  intros Hh Hname Hls Hb Hre.
  rewrite parse_lines_app, parse_lines_cons, parse_lines_app.
  set (st0 := parse_lines st pre).
  rewrite (parse_line_header _ h) by done.
  rewrite parse_lines_content by done. rewrite app_nil_l.
  destruct rest as [|h2 rest].
  - rewrite parse_lines_nil, save_section_open by done. apply lookup_insert_eq.
  - simpl in Hb. apply Forall_cons in Hre as [Hh2 Hre].
    rewrite parse_lines_cons, (parse_line_header _ h2) by done.
    rewrite parse_lines_untouched; cbn [current_section sections];
      [|intros [= Heq]; by apply Hh2|done].
    rewrite save_section_open by done. apply lookup_insert_eq.
Qed.

(** A name that no header carries has no entry. *)
Lemma section_absent name lines :
  not_reopened name lines →
  save_section (parse_lines parse_init lines) !! name = None.
Proof. intros Hre. by rewrite parse_lines_untouched. Qed.

End ParserFacts.

(** ** Headers and sections *)

Lemma startswith_cons a p b s :
  PyStr.startswith (String a p) (String b s) = Ascii.eqb a b && PyStr.startswith p s.
Proof. reflexivity. Qed.

Lemma startswith_two_markers s :
  PyStr.startswith "##" s = true ↔ ∃ t, s = "##" +:+ t.
Proof.
  split.
  - destruct s as [|a [|b t]]; [done| |].
    + rewrite startswith_cons. intros [_ [=]]%andb_true_iff.
    + rewrite !startswith_cons.
      intros [->%Ascii.eqb_eq [->%Ascii.eqb_eq _]%andb_true_iff]%andb_true_iff.
      by exists t.
  - intros [t ->]. reflexivity.
Qed.

(** C5, as the code has it: a line opens a section when its trimmed form
    starts with at least two header markers, whatever follows them (a third
    marker included).  The section is named by the trimmed line with all
    leading markers stripped and trimmed again; when that name is not empty
    and no later header carries the same name, the section holds the list
    items of the lines up to the next header.  A header whose name is empty
    closes the open section and opens none: the lines after it, up to the
    next header, are ignored. *)
Theorem sections_start_at_headers :
  (∀ line, is_section_header line = true ↔ ∃ t, PyStr.strip line = "##" +:+ t)
  ∧ (∀ body pre h ls rest,
       body_lines body = pre ++ h :: ls ++ rest →
       is_section_header h = true → header_name h ≠ "" →
       no_header ls → at_boundary rest → not_reopened (header_name h) rest →
       parse_markdown_sections body !! header_name h = Some (section_items ls))
  ∧ (∀ body pre h ls rest,
       body_lines body = pre ++ h :: ls ++ rest →
       is_section_header h = true → header_name h = "" → no_header ls →
       parse_markdown_sections body
       = save_section (parse_lines parse_init (pre ++ h :: rest))).
Proof.
  split; [|split].
  - intros line. apply startswith_two_markers.
  - intros body pre h ls rest Hbody Hh Hname Hls Hb Hre.
    unfold parse_markdown_sections. rewrite Hbody. by apply section_extent.
  - intros body pre h ls rest Hbody Hh Hname Hls.
    unfold parse_markdown_sections. rewrite Hbody.
    rewrite !parse_lines_app, !parse_lines_cons, parse_lines_app.
    rewrite (parse_line_header _ h) by done.
    rewrite (parse_lines_outside ls); [done| |done].
    simpl. by rewrite Hname.
Qed.

Lemma sections_start_at_headers_witness :
  parse_markdown_sections Sample.steps_body !! "Detailed Steps"
  = Some ["1. do X"; "- extra note"].
Proof.
  destruct sections_start_at_headers as (_ & Hextent & _).
  apply (Hextent Sample.steps_body [] "## Detailed Steps" ["1. do X"; "- extra note"] []);
    try reflexivity; try (by vm_compute); repeat constructor.
Defined.

(** C5 as stated fails: the line [### Notes] starts with three markers, yet
    it opens a section of its own, so the item after it lands in [Notes] and
    not in [Detailed Steps]. *)
Lemma deeper_header_opens_section :
  exactly_two_markers "### Notes" = false
  ∧ is_section_header "### Notes" = true
  ∧ parse_markdown_sections Sample.nested_body !! "Notes" = Some ["- b"]
  ∧ parse_markdown_sections Sample.nested_body !! "Detailed Steps" = Some ["1. a"].
Proof. by vm_compute. Qed.

(** ** List items *)

Lemma startswith_nil s : PyStr.startswith "" s = true.
Proof. by destruct s. Qed.

(** The tuple of markers the code tests is the spec's description of a
    list-item line. *)
Lemma is_list_item_spec s : is_list_item s = spec_list_item s.
Proof.
  destruct s as [|c rest]; [done|].
  unfold is_list_item, spec_list_item, PyStr.startswith_any, list_markers.
  cbn [existsb PyStr.is_empty negb].
  rewrite !startswith_cons, !startswith_nil.
  generalize (PyStr.startswith "." rest) (PyStr.startswith " ]" rest)
    (PyStr.startswith "x]" rest).
  intros dot unchecked checked.
  destruct c as [[] [] [] [] [] [] [] []]; destruct dot, unchecked, checked; reflexivity.
Qed.

Lemma section_items_spec lines :
  section_items lines = filter (λ s, spec_list_item s = true) (PyStr.strip <$> lines).
Proof.
  unfold section_items. apply list_filter_iff. intros s. by rewrite is_list_item_spec.
Qed.

Lemma parse_no_header body :
  no_header (body_lines body) → parse_markdown_sections body = ∅.
Proof.
  intros Hno. unfold parse_markdown_sections.
  by rewrite parse_lines_outside.
Qed.

(** C6: inside a section, the lines kept are exactly the list-item lines, in
    order and trimmed: those that start with a digit 1-9 and a period, a
    dash, an asterisk, or a box marker.  The sample body yields the two steps
    of the spec, and a body without headers yields no steps and no acceptance
    criteria. *)
Theorem list_items_retained :
  (∀ s, is_list_item s = spec_list_item s)
  ∧ (∀ body pre h ls rest,
       body_lines body = pre ++ h :: ls ++ rest →
       is_section_header h = true → header_name h ≠ "" →
       no_header ls → at_boundary rest → not_reopened (header_name h) rest →
       sections_get (header_name h) (parse_markdown_sections body)
       = filter (λ s, spec_list_item s = true) (PyStr.strip <$> ls))
  ∧ (∀ now pw issue,
       i_body issue = Sample.steps_body →
       t_steps (parse_issue_at now pw issue) = ["1. do X"; "- extra note"])
  ∧ (∀ now pw issue,
       no_header (body_lines (i_body issue)) →
       t_steps (parse_issue_at now pw issue) = []
       ∧ t_acceptance_criteria (parse_issue_at now pw issue) = []).
Proof.
  split; [|split; [|split]].
  - apply is_list_item_spec.
  - intros body pre h ls rest Hbody Hh Hname Hls Hb Hre.
    unfold sections_get, parse_markdown_sections. rewrite Hbody.
    rewrite section_extent by done. apply section_items_spec.
  - intros now pw issue Hbody. unfold parse_issue_at. cbn [t_steps].
    rewrite Hbody. by vm_compute.
  - intros now pw issue Hno. unfold parse_issue_at. cbn [t_steps t_acceptance_criteria].
    by rewrite parse_no_header.
Qed.

Lemma list_items_retained_witness :
  sections_get "Detailed Steps"
    (parse_markdown_sections
       (body_of_lines ["intro"; "## Detailed Steps"; "1. do X"; "prose"; "10. ten";
                       " [x] done "; "## Acceptance Criteria"; "* works"]))
  = ["1. do X"; "[x] done"].
Proof.
  destruct list_items_retained as (_ & Hkept & _).
  apply (Hkept _ ["intro"] "## Detailed Steps"
           ["1. do X"; "prose"; "10. ten"; " [x] done "]
           ["## Acceptance Criteria"; "* works"]);
    try reflexivity; try (by vm_compute);
    repeat constructor; by vm_compute.
Defined.

(** ** Complexity *)

Lemma scan_complexity_none default labels :
  Forall (λ l, l ∉ complexity_labels) labels →
  scan_complexity default labels = default.
Proof.
  induction 1 as [|l labels Hl _ IH]; [done|].
  simpl. by rewrite bool_decide_eq_false_2.
Qed.

Lemma scan_complexity_first default pre l post :
  Forall (λ l, l ∉ complexity_labels) pre → l ∈ complexity_labels →
  scan_complexity default (pre ++ l :: post) = l.
Proof.
  intros Hpre Hl. induction Hpre as [|x pre Hx _ IH]; simpl.
  - by rewrite bool_decide_eq_true_2.
  - by rewrite bool_decide_eq_false_2.
Qed.

(** C7: the complexity of the parsed task is the first label that is one of
    [simple], [medium], [complex], and [medium] when there is none. *)
Theorem complexity_first_match :
  (∀ now pw issue,
     Forall (λ l, l ∉ complexity_labels) (i_labels issue) →
     t_complexity (parse_issue_at now pw issue) = "medium")
  ∧ (∀ now pw issue pre l post,
       i_labels issue = pre ++ l :: post →
       Forall (λ l, l ∉ complexity_labels) pre → l ∈ complexity_labels →
       t_complexity (parse_issue_at now pw issue) = l)
  ∧ (∀ now pw issue,
       i_labels issue = ["ready"; "bug"] →
       t_complexity (parse_issue_at now pw issue) = "medium")
  ∧ (∀ now pw issue,
       i_labels issue = ["ready"; "complex"] →
       t_complexity (parse_issue_at now pw issue) = "complex").
Proof.
  split; [|split; [|split]].
  - intros now pw issue Hnone. by apply scan_complexity_none.
  - intros now pw issue pre l post Hlabels Hpre Hl. cbn [parse_issue_at t_complexity].
    rewrite Hlabels. by apply scan_complexity_first.
  - intros now pw issue Hlabels. cbn [parse_issue_at t_complexity]. by rewrite Hlabels.
  - intros now pw issue Hlabels. cbn [parse_issue_at t_complexity]. by rewrite Hlabels.
Qed.

Lemma complexity_first_match_witness :
  t_complexity
    (parse_issue_at "now" Sample.github_watcher
       (Sample.issue 3 "2024-01-01T00:00:00Z" ["ready"; "simple"; "complex"] ""))
  = "simple".
Proof.
  destruct complexity_first_match as (_ & Hfirst & _).
  apply (Hfirst _ _ _ ["ready"] "simple" ["complex"]); [reflexivity| |].
  - compute_done.
  - compute_done.
Defined.

(** ** Purity of the parser *)

(** C9, as the code has it: [parse_issue] always returns a task and raises
    nothing, and it touches the outside world only to read the clock.  Every
    field of the task except [queued_at] is determined by the issue and the
    watcher, whatever the world; [queued_at] is the clock reading.  A body
    without a [Detailed Steps] (or [Acceptance Criteria]) header yields the
    empty list for that field. *)
Theorem parse_issue_total env pw issue w :
  ∃ task,
    parse_issue env pw issue w = (Ok task, asked_once w)
    ∧ t_queued_at task = utcnow env (tick w)
    ∧ (∀ env' w', ∃ task',
         parse_issue env' pw issue w' = (Ok task', asked_once w')
         ∧ with_queued_at (t_queued_at task) task' = task)
    ∧ (not_reopened "Detailed Steps" (body_lines (i_body issue)) → t_steps task = [])
    ∧ (not_reopened "Acceptance Criteria" (body_lines (i_body issue)) →
       t_acceptance_criteria task = []).
Proof.
  exists (parse_issue_at (utcnow env (tick w)) pw issue).
  split; [reflexivity|]. split; [reflexivity|]. split; [|split].
  - intros env' w'. by exists (parse_issue_at (utcnow env' (tick w')) pw issue).
  - intros Hre. cbn [parse_issue_at t_steps]. unfold sections_get, parse_markdown_sections.
    by rewrite section_absent.
  - intros Hre. cbn [parse_issue_at t_acceptance_criteria].
    unfold sections_get, parse_markdown_sections. by rewrite section_absent.
Qed.

Lemma parse_issue_total_witness :
  ∃ task,
    parse_issue Sample.quiet_env Sample.github_watcher Sample.second_issue Sample.empty_world
    = (Ok task, asked_once Sample.empty_world)
    ∧ t_steps task = [] ∧ t_acceptance_criteria task = [].
Proof.
  destruct (parse_issue_total Sample.quiet_env Sample.github_watcher Sample.second_issue
              Sample.empty_world) as (task & Hrun & _ & _ & Hsteps & Hcriteria).
  exists task. split; [exact Hrun|]. split.
  - apply Hsteps. repeat constructor. by vm_compute.
  - apply Hcriteria. repeat constructor. by vm_compute.
Defined.

(** C9 as stated fails: two runs of [parse_issue] on the same issue return
    tasks that differ in [queued_at], because each run reads the clock. *)
Lemma parse_issue_reads_clock :
  let first := parse_issue Sample.quiet_env Sample.github_watcher Sample.first_issue
                 Sample.empty_world in
  let second := parse_issue Sample.quiet_env Sample.github_watcher Sample.first_issue
                  (first.2) in
  t_queued_at <$> returned first.1 = Some "2024-03-01T00:00:0"
  ∧ t_queued_at <$> returned second.1 = Some "2024-03-01T00:00:1"
  ∧ first.1 ≠ second.1.
Proof. by vm_compute. Qed.


(** * Properties of the watcher *)

(** ** Running the monad *)

Lemma run_bind {A B} (m : M A) (k : A → M B) w :
  (m ≫= k) w = match m w with
               | (Ok a, w') => k a w'
               | (Raise e, w') => (Raise e, w')
               end.
Proof. reflexivity. Qed.

Lemma run_try_except {A} (m : M A) handles handler w :
  try_except m handles handler w
  = match m w with
    | (Ok a, w') => (Ok a, w')
    | (Raise e, w') => if handles e then handler e w' else (Raise e, w')
    end.
Proof. reflexivity. Qed.

Lemma for_each_cons {A} (x : A) xs body :
  for_each (x :: xs) body = (body x ;; for_each xs body).
Proof. reflexivity. Qed.

(** ** Frame rules *)

Global Instance appends_preorder allowed : PreOrder (appends allowed).
Proof.
  split.
  - intros w. exists []. by rewrite app_nil_r.
  - intros w1 w2 w3 (evs1 & E1 & H1) (evs2 & E2 & H2).
    exists (evs1 ++ evs2). rewrite E2, E1, app_assoc. split; [done|]. by apply Forall_app.
Qed.

Global Instance same_preorder {B} (f : World → B) : PreOrder (same f).
Proof. split; [by intros w|]. intros w1 w2 w3 H1 H2. unfold same in *. congruence. Qed.

Section Frames.

Context (R : relation World) `{!PreOrder R}.

Lemma respects_ret {A} (a : A) : respects R (ret a).
Proof. intros w. reflexivity. Qed.

Lemma respects_raise {A} e : respects R (@raise A e).
Proof. intros w. reflexivity. Qed.

Lemma respects_bind {A B} (m : M A) (k : A → M B) :
  respects R m → (∀ a, respects R (k a)) → respects R (m ≫= k).
Proof.
  intros Hm Hk w. rewrite run_bind. specialize (Hm w).
  destruct (m w) as [[a|e] w']; [|done]. etrans; [exact Hm|apply Hk].
Qed.

Lemma respects_try_except {A} (m : M A) handles handler :
  respects R m → (∀ e, respects R (handler e)) → respects R (try_except m handles handler).
Proof.
  intros Hm Hh w. rewrite run_try_except. specialize (Hm w).
  destruct (m w) as [[a|e] w']; [done|].
  destruct (handles e); [|done]. etrans; [exact Hm|apply Hh].
Qed.

Lemma respects_for_each {A} (l : list A) body :
  (∀ x, respects R (body x)) → respects R (for_each l body).
Proof.
  intros Hbody. induction l as [|x l IH]; [apply respects_ret|].
  rewrite for_each_cons. apply respects_bind; [apply Hbody|done].
Qed.

End Frames.

Ltac head_of t :=
  lazymatch t with
  | ?f _ => head_of f
  | _ => t
  end.

(** A primitive meets a frame by computation. *)
Ltac frame_leaf :=
  let w := fresh "w" in
  intros w;
  solve
    [ reflexivity
    | exists []; split; [by rewrite app_nil_r | constructor]
    | eexists [_]; split;
      [reflexivity | apply Forall_singleton; compute; intuition congruence] ].

(** Decompose a computation along its binds, handlers, loops and branches. *)
Ltac frame_step :=
  lazymatch goal with
  | |- respects _ (mbind _ _) => apply respects_bind; [tc_solve| |intros ?]
  | |- respects _ (try_except _ _ _) => apply respects_try_except; [tc_solve| |intros ?]
  | |- respects _ (for_each _ _) => apply respects_for_each; [tc_solve|intros ?]
  | |- respects _ (ret _) => apply respects_ret; tc_solve
  | |- respects _ (raise _) => apply respects_raise; tc_solve
  | |- respects _ (if ?c then _ else _) => destruct c
  | |- respects _ (match ?x with _ => _ end) => destruct x
  | |- respects _ (ask _) => frame_leaf
  | |- respects _ (emit _) => frame_leaf
  | |- respects _ (get_processed) => frame_leaf
  | |- respects _ (add_processed _) => frame_leaf
  | |- respects _ (store_file _ _) => frame_leaf
  | |- respects _ ?m => let h := head_of m in unfold h
  end.

Ltac frame := repeat frame_step.

Section WatcherFrames.

Variable env : Env.

Lemma update_issue_labels_processed pw issue :
  respects (same processed_issues) (update_issue_labels env pw issue).
Proof. frame. Qed.

Lemma update_issue_labels_quiet pw issue :
  respects (appends (λ e, not_fetch e ∧ not_task_write e)) (update_issue_labels env pw issue).
Proof. frame. Qed.

Lemma save_processed_issues_processed :
  respects (same processed_issues) (save_processed_issues env).
Proof. frame. Qed.

Lemma save_processed_issues_quiet :
  respects (appends (λ e, not_fetch e ∧ not_task_write e ∧ ¬ is_label_update e))
    (save_processed_issues env).
Proof. frame. Qed.

Lemma process_fetched_no_fetch pw issues :
  respects (appends not_fetch) (process_fetched env pw issues).
Proof. frame. Qed.

End WatcherFrames.

Section WatcherFacts.

Variable env : Env.

(** *** Computations that cannot raise *)

Lemma try_any_never_raises {A} (m : M A) handler :
  (∀ e, never_raises (handler e)) →
  never_raises (try_except m any_exception handler).
Proof.
  intros Hh w. rewrite run_try_except.
  destruct (m w) as [[a|e] w']; [by exists a|]. apply Hh.
Qed.

Lemma logger_never_raises lvl : never_raises (logger lvl).
Proof. intros w. by exists tt. Qed.

Lemma update_issue_labels_never_raises pw issue :
  never_raises (update_issue_labels env pw issue).
Proof. apply try_any_never_raises. intros _. apply logger_never_raises. Qed.


Lemma poll_project_never_raises pw : never_raises (poll_project env pw).
Proof. apply try_any_never_raises. intros _. apply logger_never_raises. Qed.

(** *** [queue_task] *)

Lemma queue_task_cases parsed pw w :
  let out := queue_task env parsed pw w in
  ∃ evs,
    trace out.2 = trace w ++ evs
    ∧ processed_issues out.2 = processed_issues w
    ∧ Forall (λ e, not_fetch e ∧ ¬ is_label_update e) evs
    ∧ match out.1 with
      | Ok _ =>
          published evs = [parsed]
          ∧ ∃ dir, (dir = primary_queue_dir ∨ dir = fallback_queue_dir env)
                   ∧ files out.2
                     = <[path_join dir (task_file_name parsed) := TaskFile parsed]> (files w)
      | Raise _ => published evs = [] ∧ files out.2 = files w
      end.
Proof.
  cbv [queue_task mkdir write_text try_except mbind M_bind bind ask emit raise ret
       logger store_file any_exception is_permission_error].
  repeat match goal with
         | |- context [fs_mkdir env ?n ?p] => destruct (fs_mkdir env n p) as [[]|]
         | |- context [fs_write_text env ?n ?p] => destruct (fs_write_text env n p) as [[]|]
         end;
    cbn [fst snd trace processed_issues files tick];
    first [ exists []; rewrite app_nil_r; split; [reflexivity|]
          | eexists; rewrite <- ?app_assoc; split; [reflexivity|] ];
    (split; [reflexivity|]);
    (split; [repeat (apply Forall_cons; split; [compute; intuition congruence|]);
             apply Forall_nil|]);
    first [ by split | split; [reflexivity|]; eexists; split; [|reflexivity]; auto ].
Qed.

(** *** [process_issue] *)

Lemma published_app evs1 evs2 : published (evs1 ++ evs2) = published evs1 ++ published evs2.
Proof. apply omap_app. Qed.

Lemma published_quiet evs : Forall not_task_write evs → published evs = [].
Proof.
  induction 1 as [|e evs He _ IH]; [done|].
  unfold published, not_task_write in *. cbn [omap list_omap]. rewrite He. exact IH.
Qed.

(** What one pass over an issue does: either [queue_task] raises, and then
    the exception leaves [process_issue] with nothing published and the
    processed set as it was; or the artifact is written and the key
    recorded (the pass can then still raise when the dedup file's directory
    cannot be made). *)
Lemma process_issue_cases pw issue w :
  let parsed := parse_issue_at (utcnow env (tick w)) pw issue in
  let queued := queue_task env parsed pw (before_queue w) in
  let out := process_issue env pw issue w in
  ∃ evs,
    trace out.2 = trace w ++ evs
    ∧ Forall not_fetch evs
    ∧ ((∃ e, queued.1 = Raise e
             ∧ out = (Raise e, queued.2)
             ∧ published evs = []
             ∧ Forall (λ e, ¬ is_label_update e) evs
             ∧ processed_issues out.2 = processed_issues w
             ∧ files out.2 = files w)
       ∨ (queued.1 = Ok tt
          ∧ published evs = [parsed]
          ∧ processed_issues out.2 = processed_issues w ∪ {[issue_key pw issue]})).
Proof.
  intros parsed queued out.
  destruct (queue_task_cases parsed pw (before_queue w)) as (evq & Htr & Hpr & Hq & Hcase).
  fold queued in Htr, Hpr, Hcase.
  assert (out = match queued with
                | (Ok _, wq) =>
                    (update_issue_labels env pw issue;;
                     add_processed (issue_key pw issue);;
                     save_processed_issues env;;
                     logger Info) wq
                | (Raise e, wq) => (Raise e, wq)
                end) as Hout by reflexivity.
  destruct queued as [[[]|e] wq]; cbn [fst snd] in *.
  - (* the artifact was written *)
    destruct Hcase as [Hpub _].
    destruct (update_issue_labels_never_raises pw issue wq) as [[] Hok].
    pose proof (update_issue_labels_processed env pw issue wq) as Hlp.
    pose proof (update_issue_labels_quiet env pw issue wq) as (evl & Hlt & Hlq).
    rewrite run_bind in Hout.
    destruct (update_issue_labels env pw issue wq) as [rl wl]. cbn [fst snd] in *. subst rl.
    rewrite run_bind in Hout. cbn [add_processed] in Hout. rewrite run_bind in Hout.
    set (wa := {| tick := tick wl; processed_issues := processed_issues wl ∪ {[issue_key pw issue]};
                  files := files wl; trace := trace wl |}) in Hout.
    pose proof (save_processed_issues_processed env wa) as Hsp.
    pose proof (save_processed_issues_quiet env wa) as (evs & Hst & Hsq).
    destruct (save_processed_issues env wa) as [[[]|e] ws]; cbn [fst snd] in *.
    + exists ((EvLog Info :: evq) ++ evl ++ evs ++ [EvLog Info]).
      rewrite Hout. cbn [logger emit fst snd trace processed_issues].
      split; [|split].
      * rewrite Hst. cbn [wa trace]. rewrite Hlt, Htr. cbn [before_queue asked_once logged trace].
        by rewrite <- !app_assoc.
      * apply Forall_app. split; [apply Forall_cons; split; [done|]|].
        { eapply Forall_impl; [exact Hq|]. by intros ? [? _]. }
        apply Forall_app. split; [eapply Forall_impl; [exact Hlq|]; by intros ? [? _]|].
        apply Forall_app. split; [eapply Forall_impl; [exact Hsq|]; by intros ? [? _]|].
        by apply Forall_singleton.
      * right. split; [done|]. split.
        -- rewrite !published_app. cbn [app]. change (published (EvLog Info :: evq)) with (published evq).
           rewrite Hpub, (published_quiet evl), (published_quiet evs); [done|..].
           ++ eapply Forall_impl; [exact Hsq|]. by intros ? (? & ? & ?).
           ++ eapply Forall_impl; [exact Hlq|]. by intros ? [? ?].
        -- unfold same in *. rewrite Hsp. cbn [wa processed_issues]. rewrite Hlp, Hpr. done.
    + exists ((EvLog Info :: evq) ++ evl ++ evs).
      rewrite Hout. cbn [fst snd].
      split; [|split].
      * rewrite Hst. cbn [wa trace]. rewrite Hlt, Htr. cbn [before_queue asked_once logged trace].
        by rewrite <- !app_assoc.
      * apply Forall_app. split; [apply Forall_cons; split; [done|]|].
        { eapply Forall_impl; [exact Hq|]. by intros ? [? _]. }
        apply Forall_app. split; [eapply Forall_impl; [exact Hlq|]; by intros ? [? _]|].
        eapply Forall_impl; [exact Hsq|]; by intros ? [? _].
      * right. split; [done|]. split.
        -- rewrite !published_app. cbn [app]. change (published (EvLog Info :: evq)) with (published evq).
           rewrite Hpub, (published_quiet evl), (published_quiet evs); [done|..].
           ++ eapply Forall_impl; [exact Hsq|]. by intros ? (? & ? & ?).
           ++ eapply Forall_impl; [exact Hlq|]. by intros ? [? ?].
        -- unfold same in *. rewrite Hsp. cbn [wa processed_issues]. rewrite Hlp, Hpr. done.
  - (* the write failed *)
    destruct Hcase as [Hpub Hfiles].
    exists (EvLog Info :: evq). rewrite Hout. cbn [fst snd].
    split; [|split].
    + rewrite Htr. cbn [before_queue asked_once logged trace]. by rewrite <- app_assoc.
    + apply Forall_cons. split; [done|]. eapply Forall_impl; [exact Hq|]. by intros ? [? _].
    + left. exists e. split; [done|]. split; [done|]. split; [done|]. split; [|split].
      * apply Forall_cons. split; [by intros []|].
        eapply Forall_impl; [exact Hq|]. by intros ? [_ ?].
      * by rewrite Hpr.
      * by rewrite Hfiles.
Qed.

(** *** A batch of issues *)

Lemma keys_of_nil pw : keys_of pw [] = ∅.
Proof. reflexivity. Qed.

Lemma keys_of_cons pw issue issues :
  keys_of pw (issue :: issues) = {[issue_key pw issue]} ∪ keys_of pw issues.
Proof. reflexivity. Qed.

(** The loop over the new issues publishes and records an initial segment
    of them, all of them when it does not raise. *)
Lemma process_batch pw issues : ∀ w,
  let out := for_each issues (process_issue env pw) w in
  ∃ evs k,
    trace out.2 = trace w ++ evs
    ∧ Forall not_fetch evs
    ∧ t_issue_id <$> published evs = i_id <$> take k issues
    ∧ processed_issues out.2 = processed_issues w ∪ keys_of pw (take k issues)
    ∧ (out.1 = Ok tt → take k issues = issues).
Proof.
  induction issues as [|issue issues IH]; intros w out.
  - exists [], 0%nat. subst out. cbn [for_each ret fst snd]. rewrite app_nil_r, take_0, keys_of_nil.
    repeat split; [constructor|set_solver].
  - subst out. rewrite for_each_cons, run_bind.
    destruct (process_issue_cases pw issue w) as (evs1 & Htr & Hnf & Hcase).
    destruct (process_issue env pw issue w) as [[[]|e] w1]; cbn [fst snd] in *.
    + destruct Hcase as [(e & _ & [=] & _)|(_ & Hpub & Hpr)].
      destruct (IH w1) as (evs2 & k & Htr2 & Hnf2 & Hids & Hpr2 & Hall).
      exists (evs1 ++ evs2), (S k).
      split; [by rewrite Htr2, Htr, app_assoc|].
      split; [by apply Forall_app|].
      split; [rewrite published_app, Hpub, fmap_app, Hids; reflexivity|].
      split.
      * rewrite Hpr2, Hpr. cbn [take]. rewrite keys_of_cons. set_solver.
      * intros Hok. cbn [take]. by rewrite Hall.
    + destruct Hcase as [(e' & _ & _ & Hpub & _ & Hpr & _)|(_ & Hpub & Hpr)].
      * exists evs1, 0%nat. rewrite Hpub, Hpr, take_0, keys_of_nil.
        repeat split; [done..|set_solver|done].
      * exists evs1, 1%nat. rewrite Hpub, Hpr. cbn [take]. rewrite take_0, keys_of_cons, keys_of_nil.
        repeat split; [done..|set_solver|done].
Qed.

Lemma process_fetched_cases pw issues w :
  let new := new_issues (processed_issues w) pw issues in
  let out := process_fetched env pw issues w in
  ∃ evs k,
    trace out.2 = trace w ++ evs
    ∧ Forall not_fetch evs
    ∧ t_issue_id <$> published evs = i_id <$> take k new
    ∧ processed_issues out.2 = processed_issues w ∪ keys_of pw (take k new)
    ∧ (out.1 = Ok tt → take k new = new).
Proof.
  intros new out.
  assert (out = ((if bool_decide (new = []) then ret tt else logger Info);;
                 for_each new (process_issue env pw)) w) as Hout by reflexivity.
  rewrite run_bind in Hout. case_bool_decide as Hnew.
  - cbn [ret] in Hout. rewrite Hnew in *. exists [], 0%nat. rewrite Hout.
    cbn [for_each ret fst snd]. rewrite app_nil_r, take_0, keys_of_nil.
    repeat split; [constructor|set_solver].
  - cbn [logger emit] in Hout. fold (logged Info w) in Hout.
    destruct (process_batch pw new (logged Info w)) as (evs & k & Htr & Hnf & Hids & Hpr & Hall).
    rewrite <- Hout in Htr, Hpr, Hall.
    exists (EvLog Info :: evs), k. cbn [logged trace processed_issues] in *.
    rewrite <- app_assoc in Htr.
    repeat split; [done|by constructor|done..].
Qed.

(** Once every issue of a list is recorded, processing the list does
    nothing. *)
Lemma process_fetched_all_recorded pw issues w :
  Forall (λ issue, issue_key pw issue ∈ processed_issues w) issues →
  process_fetched env pw issues w = (Ok tt, w).
Proof.
  intros Hall.
  assert (new_issues (processed_issues w) pw issues = []) as Hnew.
  { unfold new_issues. induction Hall as [|issue issues Hin _ IH]; [done|].
    rewrite filter_cons_False; [done|]. by intros Hnot. }
  unfold process_fetched. rewrite run_bind. cbn [get_processed]. rewrite Hnew.
  rewrite bool_decide_eq_true_2 by done. by destruct w.
Qed.

Lemma StronglySorted_filter {A} (R : relation A) (P : A → Prop) `{!∀ x, Decision (P x)} l :
  StronglySorted R l → StronglySorted R (filter P l).
Proof.
  induction 1 as [|x l _ IH Hx]; [constructor|].
  rewrite filter_cons. case_decide; [|done].
  constructor; [done|]. apply Forall_forall. intros y [_ Hy]%list_elem_of_filter.
  by eapply Forall_forall in Hx.
Qed.

Lemma StronglySorted_take {A} (R : relation A) k l :
  StronglySorted R l → StronglySorted R (take k l).
Proof.
  intros Hl. revert k. induction Hl as [|x l _ IH Hx]; intros [|k]; cbn; try constructor.
  - apply IH.
  - apply Forall_forall. intros y Hy. eapply Forall_forall in Hx; [done|].
    eapply (subseteq_take k). exact Hy.
Qed.

(** *** [queue_task], path by path *)


Lemma queue_task_fallback_written parsed pw w :
  let artifact := path_join (fallback_queue_dir env) (task_file_name parsed) in
  fs_mkdir env (tick w) primary_queue_dir = Some PermissionError →
  fs_mkdir env (S (tick w)) (fallback_queue_dir env) = None →
  fs_write_text env (S (S (tick w))) artifact = None →
  queue_task env parsed pw w
  = (Ok tt,
     {| tick := S (S (S (tick w)));
        processed_issues := processed_issues w;
        files := <[artifact := TaskFile parsed]> (files w);
        trace := trace w ++ [EvMkdir (fallback_queue_dir env); EvLog Warning;
                             EvWriteText artifact (TaskFile parsed); EvLog Info] |}).
Proof.
  intros artifact Hmk Hfb Hwr.
  cbv [queue_task mkdir write_text try_except mbind M_bind bind ask emit raise ret
       logger store_file any_exception is_permission_error].
  rewrite Hmk. cbn [tick]. rewrite Hfb. cbn [tick]. fold artifact. rewrite Hwr.
  cbn [tick processed_issues files trace]. by rewrite <- !app_assoc.
Qed.

Lemma queue_task_fallback_unmade parsed pw w e :
  fs_mkdir env (tick w) primary_queue_dir = Some PermissionError →
  fs_mkdir env (S (tick w)) (fallback_queue_dir env) = Some e →
  queue_task env parsed pw w = (Raise e, asked_once (asked_once w)).
Proof.
  intros Hmk Hfb.
  cbv [queue_task mkdir write_text try_except mbind M_bind bind ask emit raise ret
       logger store_file any_exception is_permission_error].
  rewrite Hmk. cbn [tick]. by rewrite Hfb.
Qed.

Lemma queue_task_fallback_refused parsed pw w e :
  fs_mkdir env (tick w) primary_queue_dir = Some PermissionError →
  fs_mkdir env (S (tick w)) (fallback_queue_dir env) = None →
  fs_write_text env (S (S (tick w)))
    (path_join (fallback_queue_dir env) (task_file_name parsed)) = Some e →
  (queue_task env parsed pw w).1 = Raise e ∧ files (queue_task env parsed pw w).2 = files w.
Proof.
  intros Hmk Hfb Hwr.
  cbv [queue_task mkdir write_text try_except mbind M_bind bind ask emit raise ret
       logger store_file any_exception is_permission_error].
  rewrite Hmk. cbn [tick]. rewrite Hfb. cbn [tick]. by rewrite Hwr.
Qed.

End WatcherFacts.

(** * Idempotence, ordering and failed publishes *)

(** C1, as the code has it: an issue whose key is already in the processed
    set is dropped by the filter, so the batch runs exactly as if the issue
    had not been fetched (nothing is parsed, written, relabelled or
    recorded for it), and a list of recorded issues leaves the world
    untouched.  When a first processing of a list returned without
    raising, a second processing of the same list, in whatever state the
    outside world then is, returns at once and leaves the queue, the
    processed set and the trace as the first one left them. *)
Theorem processed_issue_skipped env pw :
  (∀ issues1 issue issues2 w,
     issue_key pw issue ∈ processed_issues w →
     process_fetched env pw (issues1 ++ issue :: issues2) w
     = process_fetched env pw (issues1 ++ issues2) w)
  ∧ (∀ issues w,
       Forall (λ issue, issue_key pw issue ∈ processed_issues w) issues →
       process_fetched env pw issues w = (Ok tt, w))
  ∧ (∀ env' issues w w1,
       process_fetched env pw issues w = (Ok tt, w1) →
       process_fetched env' pw issues w1 = (Ok tt, w1)).
Proof.
  split; [|split].
  - intros issues1 issue issues2 w Hin.
    unfold process_fetched. rewrite !run_bind. cbn [get_processed].
    unfold new_issues. rewrite !filter_app, filter_cons_False; [done|]. by intros Hnot.
  - intros issues w. apply process_fetched_all_recorded.
  - intros env' issues w w1 Hrun.
    apply process_fetched_all_recorded.
    destruct (process_fetched_cases env pw issues w) as (evs & k & _ & _ & _ & Hpr & Hall).
    rewrite Hrun in Hpr, Hall. cbn [fst snd] in Hpr, Hall.
    rewrite Hall in Hpr by done. rewrite Hpr.
    apply Forall_forall. intros issue Hissue.
    destruct (decide (issue_key pw issue ∈ processed_issues w)) as [Hold|Hnew]; [set_solver|].
    apply elem_of_union_r. unfold keys_of. rewrite elem_of_list_to_set.
    apply list_elem_of_fmap. exists issue. split; [done|].
    unfold new_issues. by apply list_elem_of_filter.
Qed.

Lemma processed_issue_skipped_witness :
  let first := process_fetched Sample.quiet_env Sample.github_watcher
                 [Sample.first_issue; Sample.second_issue] Sample.empty_world in
  process_fetched Sample.flaky_env Sample.github_watcher
    [Sample.first_issue; Sample.second_issue] first.2
  = (Ok tt, first.2).
Proof.
  intros first.
  destruct (processed_issue_skipped Sample.quiet_env Sample.github_watcher) as (_ & _ & Hagain).
  apply (Hagain _ _ Sample.empty_world). by vm_compute.
Defined.

(** C1 as stated fails when the first processing did not complete: the
    first run cannot write the artifact and raises, the second run of the
    same list finds the disk writable, and leaves a queue and a processed
    set that differ from those the first run left. *)
Lemma second_run_retries_failed_publish :
  let pw := Sample.github_watcher in
  let first := process_fetched Sample.flaky_env pw [Sample.first_issue] Sample.empty_world in
  let second := process_fetched Sample.flaky_env pw [Sample.first_issue] (first.2) in
  let artifact := "/var/lib/lazy_birtd/queue/task-game-1.json" in
  first.1 = Raise OtherError
  ∧ (issue_key pw Sample.first_issue ∉ processed_issues (first.2))
  ∧ files (first.2) !! artifact = None
  ∧ second.1 = Ok tt
  ∧ issue_key pw Sample.first_issue ∈ processed_issues (second.2)
  ∧ is_Some (files (second.2) !! artifact).
Proof.
  cbv zeta. split; [by vm_compute|]. split; [compute_done|]. split; [by vm_compute|].
  split; [by vm_compute|]. split; [compute_done|]. vm_compute. by eexists.
Qed.

(** C3, as the code has it: the artifacts of a batch are written in the
    order in which the fetch returned the surviving issues; the code asks
    the tracker for ascending creation order and does not sort.  The
    published issues are an initial segment of the surviving ones, all of
    them when the batch does not raise, and they are in ascending creation
    order whenever the fetched list is. *)
Theorem published_in_fetch_order env pw issues w :
  let new := new_issues (processed_issues w) pw issues in
  let out := process_fetched env pw issues w in
  ∃ evs done,
    trace out.2 = trace w ++ evs
    ∧ done `prefix_of` new
    ∧ t_issue_id <$> published evs = i_id <$> done
    ∧ (out.1 = Ok tt → done = new)
    ∧ (ascending_created issues → ascending_created done).
Proof.
  intros new out.
  destruct (process_fetched_cases env pw issues w) as (evs & k & Htr & _ & Hids & _ & Hall).
  exists evs, (take k new). split; [done|]. split; [apply prefix_take|].
  split; [done|]. split; [done|].
  intros Hsorted. by apply StronglySorted_take, StronglySorted_filter.
Qed.

Lemma published_in_fetch_order_witness :
  let out := process_fetched Sample.quiet_env Sample.github_watcher
               [Sample.first_issue; Sample.second_issue] Sample.empty_world in
  ∃ evs done,
    trace out.2 = evs
    ∧ t_issue_id <$> published evs = i_id <$> done
    ∧ ascending_created done.
Proof.
  intros out.
  destruct (published_in_fetch_order Sample.quiet_env Sample.github_watcher
              [Sample.first_issue; Sample.second_issue] Sample.empty_world)
    as (evs & done & Htr & _ & Hids & _ & Hasc).
  exists evs, done. split; [exact Htr|]. split; [exact Hids|].
  apply Hasc. repeat constructor; by vm_compute.
Defined.

(** C3 as stated fails: a list fetched newest first is published newest
    first. *)
Lemma unsorted_fetch_published_unsorted :
  let issues := [Sample.second_issue; Sample.first_issue] in
  let out := process_fetched Sample.quiet_env Sample.github_watcher issues
               Sample.empty_world in
  out.1 = Ok tt
  ∧ t_issue_id <$> published (trace (out.2)) = [2; 1]
  ∧ i_created_at <$> issues = ["2024-02-01T00:00:00Z"; "2024-01-01T00:00:00Z"]
  ∧ ¬ ascending_created issues.
Proof.
  cbv zeta. split; [by vm_compute|]. split; [by vm_compute|]. split; [done|].
  intros Hsorted. apply StronglySorted_cons in Hsorted as [Hle _].
  apply Forall_cons in Hle as [Hle _]. by vm_compute in Hle.
Qed.



(** * Isolation of projects *)

Section Rounds.

Variable env : Env.

Lemma fetched_app evs1 evs2 : fetched (evs1 ++ evs2) = fetched evs1 ++ fetched evs2.
Proof. apply omap_app. Qed.

Lemma fetched_quiet evs : Forall not_fetch evs → fetched evs = [].
Proof.
  induction 1 as [|e evs He _ IH]; [done|].
  unfold fetched, not_fetch in *. cbn [omap list_omap]. rewrite He. exact IH.
Qed.


(** Polling a project marks the fetch of that project and of no other. *)
Lemma poll_project_fetches pw w :
  ∃ evs, trace (poll_project env pw w).2 = trace w ++ evs ∧ fetched evs = [project_id pw].
Proof.
  unfold poll_project. rewrite run_try_except. unfold poll_project_body. rewrite run_bind.
  unfold fetch_ready_issues. rewrite run_bind. cbn [emit].
  match goal with
  | |- context [try_except ?m any_exception ?h ?w0] =>
      assert (respects (appends not_fetch) (try_except m any_exception h)) as Hf by frame;
      specialize (Hf w0);
      destruct (try_except m any_exception h w0) as [[issues|e] w1]
  end; destruct Hf as (evs1 & Htr1 & Hnf1); cbn [snd trace] in Htr1.
  - pose proof (process_fetched_no_fetch env pw issues w1) as (evs2 & Htr2 & Hnf2).
    destruct (process_fetched env pw issues w1) as [[[]|e] w2]; cbn [snd any_exception] in *.
    + exists ([EvFetch (project_id pw)] ++ evs1 ++ evs2).
      rewrite Htr2, Htr1, <- !app_assoc. split; [done|].
      by rewrite !fetched_app, (fetched_quiet evs1), (fetched_quiet evs2).
    + exists ([EvFetch (project_id pw)] ++ evs1 ++ evs2 ++ [EvLog Error]).
      cbn [logger emit snd trace]. rewrite Htr2, Htr1, <- !app_assoc. split; [done|].
      by rewrite !fetched_app, (fetched_quiet evs1), (fetched_quiet evs2).
  - exists ([EvFetch (project_id pw)] ++ evs1 ++ [EvLog Error]).
    cbn [any_exception logger emit snd trace]. rewrite Htr1, <- !app_assoc. split; [done|].
    by rewrite !fetched_app, (fetched_quiet evs1).
Qed.

(** The loop over the projects returns and polls every project in turn. *)
Lemma poll_all pws : ∀ w,
  (for_each pws (poll_project env) w).1 = Ok tt
  ∧ ∃ evs, trace (for_each pws (poll_project env) w).2 = trace w ++ evs
           ∧ fetched evs = project_id <$> pws.
Proof.
  induction pws as [|pw pws IH]; intros w.
  - split; [done|]. exists []. by rewrite app_nil_r.
  - rewrite for_each_cons, run_bind.
    destruct (poll_project_never_raises env pw w) as [[] Hok].
    destruct (poll_project_fetches pw w) as (evs1 & Htr1 & Hf1).
    destruct (poll_project env pw w) as [r w1]. cbn [fst snd] in *. subst r.
    destruct (IH w1) as (Hok2 & evs2 & Htr2 & Hf2).
    split; [done|]. exists (evs1 ++ evs2).
    by rewrite Htr2, Htr1, app_assoc, fetched_app, Hf1, Hf2.
Qed.

Lemma poll_round_run pws w :
  poll_round env pws w = (Ok tt, (emit EvSleep (for_each pws (poll_project env) w).2).2).
Proof.
  unfold poll_round. rewrite run_bind.
  destruct (poll_all pws w) as (Hok & _).
  destruct (for_each pws (poll_project env) w) as [r w']. cbn [fst] in Hok. by subst r.
Qed.

End Rounds.



(** * The fallback queue directory *)

(** The path that does fall back: when creating the system-wide queue
    directory raises a permission error, [queue_task] turns to the
    user-scoped directory.  If that directory can be created and the
    artifact written into it, [queue_task] returns without error, the
    artifact is the file of that name in the fallback directory, and the
    only traces of the fallback are the directory made and a warning.  If
    the fallback directory cannot be created, or the write into it is
    refused, the exception is raised to the caller and no file is
    written. *)
Theorem fallback_queue_directory env parsed pw w :
  fs_mkdir env (tick w) primary_queue_dir = Some PermissionError →
  let artifact := path_join (fallback_queue_dir env) (task_file_name parsed) in
  let out := queue_task env parsed pw w in
  (fs_mkdir env (S (tick w)) (fallback_queue_dir env) = None →
   fs_write_text env (S (S (tick w))) artifact = None →
   out.1 = Ok tt
   ∧ files out.2 = <[artifact := TaskFile parsed]> (files w)
   ∧ processed_issues out.2 = processed_issues w
   ∧ trace out.2 = trace w ++ [EvMkdir (fallback_queue_dir env); EvLog Warning;
                               EvWriteText artifact (TaskFile parsed); EvLog Info])
  ∧ (∀ e, fs_mkdir env (S (tick w)) (fallback_queue_dir env) = Some e →
          out.1 = Raise e ∧ files out.2 = files w)
  ∧ (∀ e, fs_mkdir env (S (tick w)) (fallback_queue_dir env) = None →
          fs_write_text env (S (S (tick w))) artifact = Some e →
          out.1 = Raise e ∧ files out.2 = files w).
Proof.
  intros Hmk artifact out. split; [|split].
  - intros Hfb Hwr. subst out. by rewrite queue_task_fallback_written.
  - intros e Hfb. subst out. by rewrite (queue_task_fallback_unmade env parsed pw w e).
  - intros e Hfb Hwr. by apply queue_task_fallback_refused.
Qed.

Lemma fallback_queue_directory_witness :
  let env :=
    {| utcnow := Sample.clock;
       home := "/home/bird";
       http_github_issues := λ _ _ _ _, inr [];
       http_gitlab_project := λ _ _ _, inr 42;
       http_gitlab_issues := λ _ _ _, inr [];
       http_gitlab_put := λ _ _ _ _ _, inr 200;
       run_gh_issue_edit := λ _ _ _ _ _, inr 0;
       fs_mkdir := λ _ path,
         if String.eqb path "/var/lib/lazy_birtd/queue" then Some PermissionError else None;
       fs_write_text := λ _ _, None |} in
  let parsed := parse_issue_at "now" Sample.github_watcher Sample.first_issue in
  let out := queue_task env parsed Sample.github_watcher Sample.empty_world in
  out.1 = Ok tt
  ∧ files out.2
    = {["/home/bird/.config/lazy_birtd/queue/task-game-1.json" := TaskFile parsed]}.
Proof.
  intros env parsed out.
  destruct (fallback_queue_directory env parsed Sample.github_watcher Sample.empty_world)
    as (Hok & _ & _); [reflexivity|].
  destruct Hok as (H1 & H2 & _); [reflexivity..|].
  split; [exact H1|exact H2].
Defined.

(** The fallback is no guarantee: on a machine where no directory can be
    created, the fallback directory fails like the system-wide one and
    [queue_task] raises. *)
Lemma fallback_can_fail :
  let parsed := parse_issue_at "now" Sample.github_watcher Sample.first_issue in
  let blocked := queue_task Sample.readonly_env parsed Sample.github_watcher
                   Sample.empty_world in
  blocked.1 = Raise PermissionError
  ∧ files (blocked.2) = ∅.
Proof. by vm_compute. Qed.

(** The permission error of a write is not the permission error of
    [mkdir]: when the system-wide directory is there (or can be made) and
    the write of the artifact into it is refused, [queue_task] logs the
    failure and raises it.  The fallback directory is neither made nor
    written to, whatever it would have answered. *)
Lemma queue_task_refused_in_place env parsed pw w e :
  fs_mkdir env (tick w) primary_queue_dir = None →
  fs_write_text env (S (tick w)) (path_join primary_queue_dir (task_file_name parsed))
  = Some e →
  queue_task env parsed pw w
  = (Raise e,
     {| tick := S (S (tick w));
        processed_issues := processed_issues w;
        files := files w;
        trace := trace w ++ [EvMkdir primary_queue_dir; EvLog Error] |}).
Proof.
  intros Hmk Hwr.
  cbv [queue_task mkdir write_text try_except mbind M_bind bind ask emit raise ret
       logger store_file any_exception is_permission_error].
  rewrite Hmk. cbn [tick]. rewrite Hwr.
  cbn [tick processed_issues files trace]. by rewrite <- !app_assoc.
Qed.

(** C8 (a defect of the code): the comment in [queue_task] promises a
    fallback "if /var/lib not writable", and the handler of the
    permission error of [mkdir] provides it.  But [mkdir] with
    [exist_ok=True] raises nothing for a directory that exists, so on a
    machine where the system-wide queue directory exists and the watcher
    may not write into it, no fallback is attempted: the permission error
    of the write is raised to the caller and no artifact is written,
    although the user-scoped directory would have accepted both the
    [mkdir] and the write. *)
Theorem unwritable_queue_directory_no_fallback :
  let env := Sample.unwritable_queue_env in
  let parsed := parse_issue_at "now" Sample.github_watcher Sample.first_issue in
  let refused := path_join primary_queue_dir (task_file_name parsed) in
  let wanted := path_join (fallback_queue_dir env) (task_file_name parsed) in
  let out := queue_task env parsed Sample.github_watcher Sample.empty_world in
  (∀ n, fs_mkdir env n primary_queue_dir = None
        ∧ fs_write_text env n refused = Some PermissionError)
  ∧ (∀ n, fs_mkdir env n (fallback_queue_dir env) = None
          ∧ fs_write_text env n wanted = None)
  ∧ out.1 = Raise PermissionError
  ∧ files out.2 = ∅
  ∧ trace out.2 = [EvMkdir primary_queue_dir; EvLog Error].
Proof.
  intros env parsed refused wanted out.
  split; [by intros n; vm_compute|]. split; [by intros n; vm_compute|].
  subst out.
  rewrite (queue_task_refused_in_place env parsed _ _ PermissionError) by reflexivity.
  by vm_compute.
Qed.

(** * GitLab projects without a numeric id *)

Section Gitlab.

Variable env : Env.

Lemma update_gitlab_labels_unconfigured pw issue w :
  platform pw = "gitlab" →
  c_project_id (project_config pw) = None →
  update_issue_labels env pw issue w = (Ok tt, logged Warning w).
Proof.
  intros Hplat Hid. unfold update_issue_labels, update_gitlab_labels, configured_id.
  by rewrite Hplat, Hid.
Qed.

Lemma save_processed_issues_ok w :
  fs_mkdir env (tick w) (path_join (config_dir env) "data") = None →
  (save_processed_issues env w).1 = Ok tt.
Proof.
  intros Hmk.
  cbv [save_processed_issues mkdir write_text try_except mbind M_bind bind ask emit raise ret
       logger store_file any_exception get_processed].
  rewrite Hmk. cbn [tick].
  by destruct (fs_write_text env (S (tick w)) (processed_file env)).
Qed.

Lemma fetch_gitlab_by_lookup pw w gitlab_id items :
  platform pw = "gitlab" →
  c_project_id (project_config pw) = None →
  http_gitlab_project env (tick w) (PyStr.join "/" (PyStr.last2 (repo_parts pw))) (token pw)
  = inr gitlab_id →
  http_gitlab_issues env (S (tick w)) gitlab_id (token pw) = inr items →
  (fetch_ready_issues env pw w).1 = Ok (gitlab_issue <$> items).
Proof.
  intros Hplat Hid Hlookup Hlist.
  unfold fetch_ready_issues, fetch_gitlab_issues, configured_id, gitlab_list_issues.
  rewrite Hplat, Hid.
  cbv [try_except mbind M_bind bind ask emit raise ret logger any_exception call String.eqb
       Ascii.eqb Bool.eqb].
  cbn [tick]. rewrite Hlookup. cbn [tick]. by rewrite Hlist.
Qed.

End Gitlab.

(** C10: for a GitLab project whose configuration has no numeric
    [project_id], the label transition logs one warning and does nothing
    else, although the fetch of the same project resolves the id by a
    lookup of the repository path and lists the issues.  An issue of such
    a project is queued and recorded all the same: when [queue_task]
    succeeds and the directory of the dedup file can be made,
    [process_issue] returns, the artifact has been written, the key is in
    the processed set, and no label update was attempted. *)
Theorem gitlab_without_project_id env pw issue w :
  platform pw = "gitlab" →
  c_project_id (project_config pw) = None →
  update_issue_labels env pw issue w = (Ok tt, logged Warning w)
  ∧ (∀ gitlab_id items,
       http_gitlab_project env (tick w) (PyStr.join "/" (PyStr.last2 (repo_parts pw)))
         (token pw) = inr gitlab_id →
       http_gitlab_issues env (S (tick w)) gitlab_id (token pw) = inr items →
       (fetch_ready_issues env pw w).1 = Ok (gitlab_issue <$> items))
  ∧ (let parsed := parse_issue_at (utcnow env (tick w)) pw issue in
     let queued := queue_task env parsed pw (before_queue w) in
     let out := process_issue env pw issue w in
     queued.1 = Ok tt →
     fs_mkdir env (tick queued.2) (path_join (config_dir env) "data") = None →
     out.1 = Ok tt
     ∧ issue_key pw issue ∈ processed_issues out.2
     ∧ ∃ evs, trace out.2 = trace w ++ evs
              ∧ published evs = [parsed]
              ∧ Forall (λ e, ¬ is_label_update e) evs).
Proof.
  intros Hplat Hid. split; [by apply update_gitlab_labels_unconfigured|].
  split; [intros gitlab_id items; by apply fetch_gitlab_by_lookup|].
  intros parsed queued out Hq Hmk.
  destruct (queue_task_cases env parsed pw (before_queue w)) as (evq & Htr & Hpr & Hquiet & Hcase).
  fold queued in Htr, Hpr, Hcase.
  assert (out = match queued with
                | (Ok _, wq) =>
                    (update_issue_labels env pw issue;;
                     add_processed (issue_key pw issue);;
                     save_processed_issues env;;
                     logger Info) wq
                | (Raise e, wq) => (Raise e, wq)
                end) as Hout by reflexivity.
  destruct queued as [[[]|e] wq]; cbn [fst snd] in *; [|discriminate].
  destruct Hcase as [Hpub _].
  rewrite run_bind, (update_gitlab_labels_unconfigured env pw issue wq Hplat Hid) in Hout.
  rewrite run_bind in Hout. cbn [add_processed logged tick processed_issues files trace] in Hout.
  rewrite run_bind in Hout.
  set (wa := {| tick := tick wq; processed_issues := processed_issues wq ∪ {[issue_key pw issue]};
                files := files wq; trace := trace wq ++ [EvLog Warning] |}) in Hout.
  pose proof (save_processed_issues_ok env wa Hmk) as Hsok.
  pose proof (save_processed_issues_processed env wa) as Hsp.
  pose proof (save_processed_issues_quiet env wa) as (evs & Hst & Hsq).
  destruct (save_processed_issues env wa) as [[[]|e] ws]; cbn [fst snd] in *; [|discriminate].
  rewrite Hout. cbn [logger emit fst snd trace processed_issues].
  split; [done|]. split.
  - unfold same in Hsp. rewrite Hsp. cbn [wa processed_issues]. set_solver.
  - exists ((EvLog Info :: evq) ++ [EvLog Warning] ++ evs ++ [EvLog Info]).
    split; [|split].
    + rewrite Hst. cbn [wa trace]. rewrite Htr. cbn [before_queue asked_once logged trace].
      by rewrite <- !app_assoc.
    + rewrite !published_app. change (published (EvLog Info :: evq)) with (published evq).
      rewrite Hpub, (published_quiet evs); [done|].
      eapply Forall_impl; [exact Hsq|]. by intros ? (? & ? & ?).
    + apply Forall_app. split; [apply Forall_cons; split; [by intros []|]|].
      { eapply Forall_impl; [exact Hquiet|]. by intros ? [_ ?]. }
      apply Forall_app. split; [apply Forall_singleton; by intros []|].
      apply Forall_app. split; [|apply Forall_singleton; by intros []].
      eapply Forall_impl; [exact Hsq|]. by intros ? (_ & _ & ?).
Qed.

Lemma gitlab_without_project_id_witness :
  let pw := Sample.gitlab_watcher in
  let issue := Sample.issue 7 "2024-01-02T00:00:00Z" ["ready"; "simple"] "" in
  update_issue_labels Sample.half_broken_env pw issue Sample.empty_world
  = (Ok tt, logged Warning Sample.empty_world)
  ∧ (fetch_ready_issues Sample.half_broken_env pw Sample.empty_world).1 = Ok [issue]
  ∧ (process_issue Sample.half_broken_env pw issue Sample.empty_world).1 = Ok tt
  ∧ issue_key pw issue
    ∈ processed_issues (process_issue Sample.half_broken_env pw issue Sample.empty_world).2.
Proof.
  intros pw issue.
  destruct (gitlab_without_project_id Sample.half_broken_env pw issue Sample.empty_world)
    as (Hlabels & Hfetch & Hqueue); [reflexivity..|].
  split; [exact Hlabels|]. split.
  - apply (Hfetch 42
             [mkGitlabItem 7 "Issue" None ["ready"; "simple"] "https://tracker/issue"
                "2024-01-02T00:00:00Z"]); reflexivity.
  - destruct Hqueue as (Hok & Hkey & _); [by vm_compute..|]. split; [exact Hok|exact Hkey].
Defined.

(** * More about the parser *)

Section ParserInvariant.

Variable all : list string.

Lemma parse_inv_save st :
  parse_inv all st →
  ∀ name items, save_section st !! name = Some items → justified_section all name items.
Proof.
  intros (Hsecs & Hcur & Hcont) name items. unfold save_section.
  destruct (current_section st) as [cur|] eqn:Hc; [|apply Hsecs].
  destruct (truthy (Some cur)) eqn:Htr; [|apply Hsecs].
  apply truthy_Some in Htr.
  destruct (decide (cur = name)) as [->|Hne].
  - rewrite lookup_insert_eq. intros [= <-]. split; [done|]. split; [by apply Hcur|done].
  - rewrite lookup_insert_ne by done. apply Hsecs.
Qed.

Lemma parse_inv_line st line :
  line ∈ all → parse_inv all st → parse_inv all (parse_line st line).
Proof.
  intros Hin Hinv. unfold parse_line.
  destruct (is_section_header line) eqn:Hh.
  - split; [|split]; cbn [sections current_section current_content].
    + by apply parse_inv_save.
    + intros name [= <-] _. by exists line.
    + constructor.
  - destruct (truthy (current_section st)); [|done].
    destruct (is_list_item (PyStr.strip line)) eqn:Hitem; [|done].
    destruct Hinv as (Hsecs & Hcur & Hcont).
    split; [|split]; cbn [sections current_section current_content]; [done..|].
    apply Forall_app. split; [done|]. apply Forall_singleton. split; [done|]. by exists line.
Qed.

Lemma parse_inv_lines lines : ∀ st,
  (∀ line, line ∈ lines → line ∈ all) → parse_inv all st →
  parse_inv all (parse_lines st lines).
Proof.
  induction lines as [|line lines IH]; intros st Hsub Hinv; [done|].
  rewrite parse_lines_cons. apply IH.
  - intros l Hl. apply Hsub. by right.
  - apply parse_inv_line; [|done]. apply Hsub. by left.
Qed.

End ParserInvariant.

(** X1: every entry of the parsed sections is justified by the body: its
    name is the non-empty name of one of the body's header lines, and each
    of its items is the trimmed form of a list-item line of the body that
    is not a header.  No section is ever named by the empty string, and no
    prose, blank line or header reaches a section's content. *)
Theorem parsed_sections_justified body name items :
  parse_markdown_sections body !! name = Some items →
  justified_section (body_lines body) name items.
Proof.
  unfold parse_markdown_sections. apply parse_inv_save, parse_inv_lines; [done|].
  split; [|split]; cbn [parse_init sections current_section current_content].
  - intros ? ?. by rewrite lookup_empty.
  - by intros ? [=].
  - constructor.
Qed.

Lemma parsed_sections_justified_witness :
  justified_section (body_lines Sample.nested_body) "Notes" ["- b"].
Proof. apply parsed_sections_justified. by vm_compute. Defined.

(** X2: the lines of a body before its first header are ignored: the
    sections are those of the rest of the body. *)
Theorem preamble_ignored body pre rest :
  body_lines body = pre ++ rest → no_header pre →
  parse_markdown_sections body = save_section (parse_lines parse_init rest).
Proof.
  intros Hbody Hno. unfold parse_markdown_sections.
  by rewrite Hbody, parse_lines_app, (parse_lines_outside pre).
Qed.

Lemma preamble_ignored_witness :
  parse_markdown_sections
    (body_of_lines ["- not a step"; "1. nor this"; "## Detailed Steps"; "1. do X"])
  = save_section (parse_lines parse_init ["## Detailed Steps"; "1. do X"]).
Proof.
  apply (preamble_ignored _ ["- not a step"; "1. nor this"]); [reflexivity|].
  repeat constructor.
Defined.

(** * Repository settings *)

Lemma str_app_cons c s t : String c s +:+ t = String c (s +:+ t).
Proof. reflexivity. Qed.

Lemma str_app_nil_l t : "" +:+ t = t.
Proof. reflexivity. Qed.

Lemma str_app_nil_r s : s +:+ "" = s.
Proof. induction s as [|c s IH]; [done|]. by rewrite str_app_cons, IH. Qed.

Lemma str_app_assoc s t u : (s +:+ t) +:+ u = s +:+ t +:+ u.
Proof. induction s as [|c s IH]; [done|]. by rewrite !str_app_cons, IH. Qed.

Lemma rstrip_with_snoc p s c :
  p c = true → PyStr.rstrip_with p (s +:+ String c "") = PyStr.rstrip_with p s.
Proof.
  intros Hc. induction s as [|a s IH].
  - rewrite str_app_nil_l. cbn. by rewrite Hc.
  - rewrite str_app_cons. cbn [PyStr.rstrip_with]. by rewrite IH.
Qed.

Lemma rstrip_with_stripped p s t :
  PyStr.lstrip_with p t = "" → PyStr.rstrip_with p (s +:+ t) = PyStr.rstrip_with p s.
Proof.
  revert s. induction t as [|c t IH]; intros s Ht.
  - by rewrite str_app_nil_r.
  - cbn [PyStr.lstrip_with] in Ht. destruct (p c) eqn:Hc; [|done].
    change (String c t) with (String c "" +:+ t).
    rewrite <- str_app_assoc, IH by done. by apply rstrip_with_snoc.
Qed.

Lemma rstrip_with_free c s :
  has_char c s = false → PyStr.rstrip_with (PyStr.is_char c) s = s.
Proof.
  induction s as [|a s IH]; [done|].
  cbn [has_char PyStr.rstrip_with]. intros [Ha Hs]%orb_false_iff.
  rewrite IH by done. unfold PyStr.is_char. by rewrite Ha.
Qed.

Lemma rstrip_with_app p s t :
  PyStr.rstrip_with p t ≠ "" →
  PyStr.rstrip_with p (s +:+ t) = s +:+ PyStr.rstrip_with p t.
Proof.
  intros Ht. induction s as [|a s IH]; [done|].
  rewrite !str_app_cons. cbn [PyStr.rstrip_with]. rewrite IH.
  destruct (s +:+ PyStr.rstrip_with p t) as [|b u] eqn:Hs.
  - destruct s; [by rewrite str_app_nil_l in Hs|by rewrite str_app_cons in Hs].
  - cbn [PyStr.is_empty]. by rewrite andb_false_r.
Qed.

Lemma split_nonempty sep s : PyStr.split sep s ≠ [].
Proof.
  destruct s as [|c s]; [done|]. cbn [PyStr.split].
  destruct (PyStr.is_char sep c); [done|]. by destruct (PyStr.split sep s).
Qed.

Lemma split_free sep s : has_char sep s = false → PyStr.split sep s = [s].
Proof.
  induction s as [|a s IH]; [done|].
  cbn [has_char PyStr.split]. intros [Ha Hs]%orb_false_iff.
  unfold PyStr.is_char. by rewrite Ha, IH.
Qed.

Lemma split_app sep s t :
  PyStr.split sep (s +:+ String sep t) = PyStr.split sep s ++ PyStr.split sep t.
Proof.
  induction s as [|a s IH].
  - rewrite str_app_nil_l. cbn [PyStr.split]. unfold PyStr.is_char.
    by rewrite Ascii.eqb_refl.
  - rewrite str_app_cons. cbn [PyStr.split]. rewrite IH.
    destruct (PyStr.is_char sep a); [done|].
    pose proof (split_nonempty sep s). by destruct (PyStr.split sep s).
Qed.

Lemma repo_parts_named pw owner repo :
  names_repository (repository pw) owner repo →
  ∃ front, repo_parts pw = front ++ [owner; repo].
Proof.
  intros (prefix & slashes & Hrepo & Hprefix & Howner & Hname & Hne & Hsl).
  unfold repo_parts. rewrite Hrepo.
  assert (PyStr.rstrip_with (PyStr.is_char PyStr.slash) repo = repo) as Hfree
    by by apply rstrip_with_free.
  replace (prefix +:+ owner +:+ "/" +:+ repo +:+ slashes)
    with ((prefix +:+ owner +:+ "/" +:+ repo) +:+ slashes)
    by by rewrite !str_app_assoc.
  rewrite rstrip_with_stripped by done.
  replace (prefix +:+ owner +:+ "/" +:+ repo)
    with ((prefix +:+ owner +:+ "/") +:+ repo) by by rewrite !str_app_assoc.
  rewrite rstrip_with_app by by rewrite Hfree.
  rewrite Hfree.
  destruct Hprefix as [->|[base ->]].
  - exists []. rewrite str_app_nil_l, str_app_assoc.
    change ("/" +:+ repo) with (String PyStr.slash repo).
    rewrite split_app, !split_free by done. done.
  - exists (PyStr.split PyStr.slash base). rewrite !str_app_assoc.
    change ("/" +:+ owner +:+ "/" +:+ repo)
      with (String PyStr.slash (owner +:+ String PyStr.slash repo)).
    rewrite !split_app, (split_free _ owner), (split_free _ repo) by done. done.
Qed.

Lemma index_from_end_last2 front owner repo w :
  index_from_end 2 (front ++ [owner; repo]) w = (Ok owner, w)
  ∧ index_from_end 1 (front ++ [owner; repo]) w = (Ok repo, w).
Proof. unfold index_from_end. by rewrite rev_app_distr. Qed.

(** * Fetching *)

Lemma fetch_ready_issues_run env pw w :
  fetch_ready_issues env pw w
  = try_except
      (if String.eqb (platform pw) "github" then fetch_github_issues env pw
       else if String.eqb (platform pw) "gitlab" then fetch_gitlab_issues env pw
       else logger Error;; ret [])
      any_exception (λ _, logger Error;; ret [])
      (fetch_marked (project_id pw) w).
Proof. reflexivity. Qed.

(** X3: for a GitHub project whose repository setting names
    [owner]/[repo], one fetch asks the tracker once, for that owner and
    repository.  The answer's entries that are not pull requests come
    back as issues, in the tracker's order, with a missing body as the
    empty string; a failed request comes back as the empty list, with one
    error logged. *)
Theorem github_fetch_result env pw w owner repo :
  platform pw = "github" →
  names_repository (repository pw) owner repo →
  fetch_ready_issues env pw w
  = match http_github_issues env (tick w) owner repo (token pw) with
    | inr items => (Ok (github_issues_of items), asked_once (fetch_marked (project_id pw) w))
    | inl _ => (Ok [], logged Error (asked_once (fetch_marked (project_id pw) w)))
    end.
Proof.
  intros Hplat Hrepo. destruct (repo_parts_named pw owner repo Hrepo) as [front Hparts].
  rewrite fetch_ready_issues_run, run_try_except, Hplat.
  change (String.eqb "github" "github") with true. cbv iota.
  unfold fetch_github_issues. rewrite Hparts.
  destruct (index_from_end_last2 front owner repo (fetch_marked (project_id pw) w))
    as [Howner Hname].
  rewrite run_bind, Howner, run_bind, Hname, run_bind. unfold call. rewrite run_bind.
  cbn [ask fetch_marked tick].
  by destruct (http_github_issues env (tick w) owner repo (token pw)).
Qed.

Lemma github_fetch_result_witness :
  fetch_ready_issues Sample.half_broken_env Sample.github_watcher Sample.empty_world
  = (Ok [Sample.issue 1 "2024-01-01T00:00:00Z" ["ready"] Sample.steps_body],
     asked_once (fetch_marked "game" Sample.empty_world)).
Proof.
  rewrite (github_fetch_result Sample.half_broken_env Sample.github_watcher
             Sample.empty_world "owner" "game"); [reflexivity..|].
  exists "https://github.com/", "". split; [reflexivity|].
  split; [right; by exists "https://github.com"|]. by repeat split.
Defined.

(** X4: a GitHub project whose repository setting has no slash cannot be
    split into owner and repository: the fetch asks the tracker nothing
    and returns the empty list with one error logged, and the label
    transition runs no command and logs one error. *)
Theorem github_repository_without_slash env pw issue w :
  platform pw = "github" →
  has_char PyStr.slash (repository pw) = false →
  fetch_ready_issues env pw w = (Ok [], logged Error (fetch_marked (project_id pw) w))
  ∧ update_issue_labels env pw issue w = (Ok tt, logged Error w).
Proof.
  intros Hplat Hfree.
  assert (repo_parts pw = [repository pw]) as Hparts.
  { unfold repo_parts. by rewrite rstrip_with_free, split_free. }
  split.
  - rewrite fetch_ready_issues_run, run_try_except, Hplat.
    change (String.eqb "github" "github") with true. cbv iota.
    unfold fetch_github_issues. by rewrite Hparts.
  - unfold update_issue_labels. rewrite run_try_except, Hplat.
    change (String.eqb "github" "github") with true. cbv iota.
    unfold update_github_labels. by rewrite Hparts.
Qed.

Lemma github_repository_without_slash_witness :
  let pw := mkProjectWatcher Sample.cfg "game" "Game" "godot" "/srv/game" "github"
              "game" "secret" in
  fetch_ready_issues Sample.half_broken_env pw Sample.empty_world
  = (Ok [], logged Error (fetch_marked "game" Sample.empty_world)).
Proof.
  intros pw.
  by destruct (github_repository_without_slash Sample.half_broken_env pw Sample.first_issue
                 Sample.empty_world)
    as [Hfetch _].
Defined.

(** X5: a project whose platform is neither [github] nor [gitlab] is
    polled like the others but never reaches a tracker: the fetch returns
    the empty list with one error logged and no question asked, and the
    label transition does nothing at all. *)
Theorem unsupported_platform env pw issue w :
  platform pw ≠ "github" → platform pw ≠ "gitlab" →
  fetch_ready_issues env pw w = (Ok [], logged Error (fetch_marked (project_id pw) w))
  ∧ update_issue_labels env pw issue w = (Ok tt, w).
Proof.
  intros Hgh%String.eqb_neq Hgl%String.eqb_neq. split.
  - by rewrite fetch_ready_issues_run, run_try_except, Hgh, Hgl.
  - unfold update_issue_labels. by rewrite run_try_except, Hgh, Hgl.
Qed.

Lemma unsupported_platform_witness :
  let pw := mkProjectWatcher Sample.cfg "game" "Game" "godot" "/srv/game" "bitbucket"
              "owner/game" "secret" in
  fetch_ready_issues Sample.half_broken_env pw Sample.empty_world
  = (Ok [], logged Error (fetch_marked "game" Sample.empty_world))
  ∧ update_issue_labels Sample.half_broken_env pw Sample.first_issue Sample.empty_world
    = (Ok tt, Sample.empty_world).
Proof.
  intros pw.
  by apply (unsupported_platform Sample.half_broken_env pw Sample.first_issue
              Sample.empty_world).
Defined.

(** X6: a GitLab project with a non-zero numeric id in its configuration
    is fetched with one request, for the issues of that id; the id is not
    looked up.  A failed request gives the empty list and one error
    logged. *)
Theorem gitlab_fetch_configured env pw w gitlab_id :
  platform pw = "gitlab" →
  c_project_id (project_config pw) = Some gitlab_id → gitlab_id ≠ 0 →
  fetch_ready_issues env pw w
  = match http_gitlab_issues env (tick w) gitlab_id (token pw) with
    | inr items => (Ok (gitlab_issue <$> items), asked_once (fetch_marked (project_id pw) w))
    | inl _ => (Ok [], logged Error (asked_once (fetch_marked (project_id pw) w)))
    end.
Proof.
  intros Hplat Hid Hnz%Z.eqb_neq.
  rewrite fetch_ready_issues_run, run_try_except, Hplat.
  change (String.eqb "gitlab" "github") with false.
  change (String.eqb "gitlab" "gitlab") with true. cbv iota.
  unfold fetch_gitlab_issues, configured_id. rewrite Hid, Hnz.
  unfold gitlab_list_issues, call. rewrite !run_bind. cbn [ask fetch_marked tick].
  by destruct (http_gitlab_issues env (tick w) gitlab_id (token pw)).
Qed.

Lemma gitlab_fetch_configured_witness :
  let pw := mkProjectWatcher (mkProjectConfig (Some 9) None None None None) "tool" "Tool"
              "python" "/srv/tool" "gitlab" "group/tool" "secret" in
  (fetch_ready_issues Sample.half_broken_env pw Sample.empty_world).1
  = Ok [Sample.issue 7 "2024-01-02T00:00:00Z" ["ready"; "simple"] ""].
Proof.
  intros pw.
  by rewrite (gitlab_fetch_configured _ pw Sample.empty_world 9).
Defined.

(** X7: a GitLab project without a usable numeric id (none configured, or
    zero) first looks the id up from the last two parts of the repository
    setting.  When the lookup fails the fetch returns the empty list with
    one error logged and the issues are never requested; when it
    succeeds the issues of the id found are requested next. *)
Theorem gitlab_fetch_lookup env pw w :
  platform pw = "gitlab" →
  c_project_id (project_config pw) = None ∨ c_project_id (project_config pw) = Some 0 →
  let path := PyStr.join "/" (PyStr.last2 (repo_parts pw)) in
  let w0 := fetch_marked (project_id pw) w in
  fetch_ready_issues env pw w
  = match http_gitlab_project env (tick w) path (token pw) with
    | inl _ => (Ok [], logged Error (asked_once w0))
    | inr gitlab_id =>
        match http_gitlab_issues env (S (tick w)) gitlab_id (token pw) with
        | inr items => (Ok (gitlab_issue <$> items), asked_once (asked_once w0))
        | inl _ => (Ok [], logged Error (asked_once (asked_once w0)))
        end
    end.
Proof.
  intros Hplat Hid path w0.
  assert (configured_id (project_config pw) = None) as Hnone.
  { unfold configured_id. by destruct Hid as [-> | ->]. }
  rewrite fetch_ready_issues_run, run_try_except, Hplat.
  change (String.eqb "gitlab" "github") with false.
  change (String.eqb "gitlab" "gitlab") with true. cbv iota.
  unfold fetch_gitlab_issues. rewrite Hnone. fold path.
  unfold gitlab_list_issues, call. rewrite run_bind, run_try_except, !run_bind.
  cbn [ask fetch_marked tick]. fold w0.
  destruct (http_gitlab_project env (tick w) path (token pw)) as [e|gitlab_id]; [done|].
  cbn [ret any_exception]. rewrite !run_bind. cbn [ask asked_once tick].
  by destruct (http_gitlab_issues env (S (tick w)) gitlab_id (token pw)).
Qed.

Lemma gitlab_fetch_lookup_witness :
  let pw := mkProjectWatcher (mkProjectConfig (Some 0) None None None None) "tool" "Tool"
              "python" "/srv/tool" "gitlab" "https://gitlab.com/group/tool/" "secret" in
  (fetch_ready_issues Sample.half_broken_env pw Sample.empty_world).1
  = Ok [Sample.issue 7 "2024-01-02T00:00:00Z" ["ready"; "simple"] ""].
Proof.
  intros pw.
  rewrite (gitlab_fetch_lookup _ pw Sample.empty_world); [reflexivity..|by right].
Defined.

(** * The label transition *)

Lemma update_issue_labels_same_files env pw issue :
  respects (same files) (update_issue_labels env pw issue).
Proof. frame. Qed.

Lemma update_issue_labels_off_disk env pw issue :
  respects (appends (λ e, ¬ is_disk_change e)) (update_issue_labels env pw issue).
Proof. frame. Qed.

(** X8: whatever the tracker or the [gh] command does, the label
    transition returns without raising, leaves the processed set and
    every file as they are, and creates or writes nothing. *)
Theorem label_transition_harmless env pw issue w :
  let out := update_issue_labels env pw issue w in
  out.1 = Ok tt
  ∧ processed_issues out.2 = processed_issues w
  ∧ files out.2 = files w
  ∧ ∃ evs, trace out.2 = trace w ++ evs ∧ Forall (λ e, ¬ is_disk_change e) evs.
Proof.
  intros out. subst out. split; [|split; [|split]].
  - by destruct (update_issue_labels_never_raises env pw issue w) as [[] ?].
  - apply update_issue_labels_processed.
  - apply update_issue_labels_same_files.
  - apply update_issue_labels_off_disk.
Qed.

(** X9: for a GitHub project whose repository setting names
    [owner]/[repo], the label transition first runs the [gh] command
    that removes [ready] from the issue in [owner/repo].  When that
    command returns, with whatever return code, the command that adds
    [in-queue] is run next; when it raises (a timeout, a missing
    executable), no second command is run.  In both cases the transition
    returns normally. *)
Theorem github_label_transition env pw issue w owner repo :
  platform pw = "github" →
  names_repository (repository pw) owner repo →
  let repo_name := owner +:+ "/" +:+ repo in
  let remove := EvGhIssueEdit (i_id issue) repo_name "--remove-label" "ready" in
  let add := EvGhIssueEdit (i_id issue) repo_name "--add-label" "in-queue" in
  let out := update_issue_labels env pw issue w in
  out.1 = Ok tt
  ∧ ∃ evs, trace out.2 = trace w ++ evs
           ∧ label_updates evs
             = match run_gh_issue_edit env (tick w) (i_id issue) repo_name
                       "--remove-label" "ready" with
               | inr _ => [remove; add]
               | inl _ => [remove]
               end.
Proof.
  intros Hplat Hrepo repo_name remove add out.
  destruct (repo_parts_named pw owner repo Hrepo) as [front Hparts].
  assert (out = try_except
                  (returncode ← gh_issue_edit env (i_id issue) repo_name "--remove-label" "ready";
                   (if returncode =? 0 then ret tt else logger Warning);;
                   returncode ← gh_issue_edit env (i_id issue) repo_name "--add-label" "in-queue";
                   if returncode =? 0 then logger Info else logger Warning)
                  any_exception (λ _, logger Error) w) as ->.
  { subst out. unfold update_issue_labels. rewrite run_try_except, Hplat.
    change (String.eqb "github" "github") with true. cbv iota.
    unfold update_github_labels. rewrite Hparts.
    destruct (index_from_end_last2 front owner repo w) as [Howner Hname].
    rewrite run_bind, Howner, run_bind, Hname. fold repo_name.
    rewrite !run_try_except.
    match goal with |- context [mbind ?k ?m w] => by destruct (mbind k m w) as [[[]|?] ?] end. }
  cbv [gh_issue_edit call try_except mbind M_bind bind ask emit raise ret logger any_exception].
  cbn [tick fst snd trace processed_issues files].
  repeat (match goal with
          | |- context [match ?x with inl _ => _ | inr _ => _ end] => destruct x
          | |- context [if ?b then _ else _] => destruct b
          end; cbn [tick fst snd trace processed_issues files]);
    (split; [done|]); eexists; rewrite <- ?app_assoc; (split; reflexivity).
Qed.

Lemma github_label_transition_witness :
  let out := update_issue_labels Sample.quiet_env Sample.github_watcher Sample.first_issue
               Sample.empty_world in
  out.1 = Ok tt
  ∧ ∃ evs, trace out.2 = evs
           ∧ label_updates evs
             = [EvGhIssueEdit 1 "owner/game" "--remove-label" "ready";
                EvGhIssueEdit 1 "owner/game" "--add-label" "in-queue"].
Proof.
  intros out.
  apply (github_label_transition Sample.quiet_env Sample.github_watcher Sample.first_issue
           Sample.empty_world "owner" "game"); [reflexivity|].
  exists "https://github.com/", "". split; [reflexivity|].
  split; [right; by exists "https://github.com"|]. by repeat split.
Defined.

(** X10: for a GitLab project with a non-zero numeric id configured, the
    label transition sends one update for the issue, whatever the tracker
    answers.  The labels sent, joined by commas, are the issue's labels
    without [ready], in their order, followed by [processing]. *)
Theorem gitlab_label_transition env pw issue w gitlab_id :
  platform pw = "gitlab" →
  c_project_id (project_config pw) = Some gitlab_id → gitlab_id ≠ 0 →
  let out := update_issue_labels env pw issue w in
  let sent := gitlab_labels_sent issue in
  out.1 = Ok tt
  ∧ (∃ evs, trace out.2 = trace w ++ evs
            ∧ label_updates evs = [EvGitlabPut gitlab_id (i_id issue) (PyStr.join "," sent)])
  ∧ ("ready" ∉ sent)
  ∧ last sent = Some "processing"
  ∧ ∀ l, l ∈ i_labels issue → l ≠ "ready" → l ∈ sent.
Proof.
  intros Hplat Hid Hnz%Z.eqb_neq out sent. split; [|split; [|split; [|split]]].
  - by destruct (update_issue_labels_never_raises env pw issue w) as [[] ?].
  - subst out. unfold update_issue_labels. rewrite run_try_except, Hplat.
    change (String.eqb "gitlab" "github") with false.
    change (String.eqb "gitlab" "gitlab") with true. cbv iota.
    unfold update_gitlab_labels, configured_id. rewrite Hid, Hnz. fold (gitlab_labels_sent issue).
    fold sent.
    cbv [call try_except mbind M_bind bind ask emit raise ret logger any_exception].
    cbn [tick fst snd trace processed_issues files].
    repeat (match goal with
            | |- context [match ?x with inl _ => _ | inr _ => _ end] => destruct x
            | |- context [if ?b then _ else _] => destruct b
            end; cbn [tick fst snd trace processed_issues files]);
      eexists; rewrite <- ?app_assoc; (split; reflexivity).
  - unfold sent, gitlab_labels_sent. rewrite elem_of_app, list_elem_of_filter.
    intros [[? _]|Hin]; [done|]. by apply list_elem_of_singleton in Hin.
  - unfold sent, gitlab_labels_sent. apply last_snoc.
  - intros l Hl Hne. unfold sent, gitlab_labels_sent.
    apply elem_of_app. left. by apply list_elem_of_filter.
Qed.

Lemma gitlab_label_transition_witness :
  let pw := mkProjectWatcher (mkProjectConfig (Some 9) None None None None) "tool" "Tool"
              "python" "/srv/tool" "gitlab" "group/tool" "secret" in
  let issue := Sample.issue 7 "2024-01-02T00:00:00Z" ["bug"; "ready"; "simple"] "" in
  ∃ evs, trace (update_issue_labels Sample.quiet_env pw issue Sample.empty_world).2 = evs
         ∧ label_updates evs = [EvGitlabPut 9 7 "bug,simple,processing"].
Proof.
  intros pw issue.
  by destruct (gitlab_label_transition Sample.quiet_env pw issue Sample.empty_world 9)
    as (_ & Hsent & _).
Defined.

(** * More about the queue *)

Ltac run_queue_task :=
  cbv [queue_task mkdir write_text try_except mbind M_bind bind ask emit raise ret
       logger store_file any_exception is_permission_error].

(** When the system-wide queue directory can be made, the artifact is
    written into it and the fallback directory is not touched. *)
Lemma queue_task_primary env parsed pw w :
  let artifact := path_join primary_queue_dir (task_file_name parsed) in
  fs_mkdir env (tick w) primary_queue_dir = None →
  fs_write_text env (S (tick w)) artifact = None →
  queue_task env parsed pw w
  = (Ok tt,
     {| tick := S (S (tick w));
        processed_issues := processed_issues w;
        files := <[artifact := TaskFile parsed]> (files w);
        trace := trace w ++ [EvMkdir primary_queue_dir;
                             EvWriteText artifact (TaskFile parsed); EvLog Info] |}).
Proof.
  intros artifact Hmk Hwr. run_queue_task.
  rewrite Hmk. cbn [tick]. fold artifact. rewrite Hwr.
  cbn [tick processed_issues files trace]. by rewrite <- !app_assoc.
Qed.

(** X11: only a permission error sends [queue_task] to the fallback
    directory.  Any other exception from creating the system-wide
    directory is raised to the caller at once: nothing more is asked of
    the file system, nothing is logged and nothing is written. *)
Theorem queue_task_other_mkdir_error env parsed pw w e :
  fs_mkdir env (tick w) primary_queue_dir = Some e →
  e ≠ PermissionError →
  queue_task env parsed pw w = (Raise e, asked_once w).
Proof.
  intros Hmk Hne. run_queue_task. rewrite Hmk. by destruct e.
Qed.

Lemma queue_task_other_mkdir_error_witness :
  let env :=
    {| utcnow := Sample.clock;
       home := "/home/bird";
       http_github_issues := λ _ _ _ _, inr [];
       http_gitlab_project := λ _ _ _, inr 42;
       http_gitlab_issues := λ _ _ _, inr [];
       http_gitlab_put := λ _ _ _ _ _, inr 200;
       run_gh_issue_edit := λ _ _ _ _ _, inr 0;
       fs_mkdir := λ _ _, Some OtherError;
       fs_write_text := λ _ _, None |} in
  let parsed := parse_issue_at "now" Sample.github_watcher Sample.first_issue in
  queue_task env parsed Sample.github_watcher Sample.empty_world
  = (Raise OtherError, asked_once Sample.empty_world).
Proof. intros env parsed. by apply queue_task_other_mkdir_error. Defined.

(** X12: the artifact's name depends only on the project id and the issue
    number, so publishing a second task for the same issue replaces the
    first artifact: after two successful publishes into the system-wide
    directory, the files are those before the first publish plus one
    artifact, holding the second task. *)
Theorem republication_overwrites env first second pw w :
  t_project_id first = t_project_id second →
  t_issue_id first = t_issue_id second →
  let artifact := path_join primary_queue_dir (task_file_name second) in
  fs_mkdir env (tick w) primary_queue_dir = None →
  fs_write_text env (S (tick w)) artifact = None →
  fs_mkdir env (S (S (tick w))) primary_queue_dir = None →
  fs_write_text env (S (S (S (tick w)))) artifact = None →
  let w1 := (queue_task env first pw w).2 in
  let out := queue_task env second pw w1 in
  out.1 = Ok tt
  ∧ files out.2 = <[artifact := TaskFile second]> (files w).
Proof.
  intros Hpid Hid artifact Hmk1 Hwr1 Hmk2 Hwr2 w1 out.
  assert (task_file_name first = task_file_name second) as Hname.
  { unfold task_file_name. by rewrite Hpid, Hid. }
  subst out w1.
  rewrite (queue_task_primary env first pw w) by by rewrite ?Hname.
  rewrite queue_task_primary by done.
  cbn [fst snd files]. rewrite Hname. fold artifact. by rewrite insert_insert_eq.
Qed.

Lemma republication_overwrites_witness :
  let first := parse_issue_at "earlier" Sample.github_watcher Sample.first_issue in
  let second := parse_issue_at "later" Sample.github_watcher Sample.first_issue in
  let w1 := (queue_task Sample.quiet_env first Sample.github_watcher Sample.empty_world).2 in
  files (queue_task Sample.quiet_env second Sample.github_watcher w1).2
  = {["/var/lib/lazy_birtd/queue/task-game-1.json" := TaskFile second]}.
Proof.
  intros first second w1.
  by destruct (republication_overwrites Sample.quiet_env first second Sample.github_watcher
                 Sample.empty_world) as [_ Hfiles].
Defined.

(** * More about the dedup file *)

(** A refused write of the dedup file is logged and swallowed. *)
Lemma save_swallows_write_error env w e :
  fs_mkdir env (tick w) (path_join (config_dir env) "data") = None →
  fs_write_text env (S (tick w)) (processed_file env) = Some e →
  save_processed_issues env w
  = (Ok tt,
     {| tick := S (S (tick w));
        processed_issues := processed_issues w;
        files := files w;
        trace := trace w ++ [EvMkdir (path_join (config_dir env) "data"); EvLog Error] |}).
Proof.
  intros Hmk Hwr.
  cbv [save_processed_issues mkdir write_text try_except mbind M_bind bind ask emit raise ret
       logger store_file any_exception get_processed].
  rewrite Hmk. cbn [tick]. rewrite Hwr. cbn [tick processed_issues files trace].
  by rewrite <- !app_assoc.
Qed.

Lemma save_raises_mkdir_error env w e :
  fs_mkdir env (tick w) (path_join (config_dir env) "data") = Some e →
  save_processed_issues env w = (Raise e, asked_once w).
Proof.
  intros Hmk.
  cbv [save_processed_issues mkdir write_text try_except mbind M_bind bind ask emit raise ret
       logger store_file any_exception get_processed].
  by rewrite Hmk.
Qed.

(** * More about one issue *)

Lemma process_issue_after_queue env pw issue w :
  process_issue env pw issue w
  = match queue_task env (parse_issue_at (utcnow env (tick w)) pw issue) pw (before_queue w) with
    | (Ok _, wq) =>
        (update_issue_labels env pw issue;;
         add_processed (issue_key pw issue);;
         save_processed_issues env;;
         logger Info) wq
    | (Raise e, wq) => (Raise e, wq)
    end.
Proof. reflexivity. Qed.

Lemma process_fetched_skip env pw issues1 issue issues2 w :
  issue_key pw issue ∈ processed_issues w →
  process_fetched env pw (issues1 ++ issue :: issues2) w
  = process_fetched env pw (issues1 ++ issues2) w.
Proof.
  intros Hin. unfold process_fetched. rewrite !run_bind. cbn [get_processed].
  unfold new_issues. rewrite !filter_app, filter_cons_False; [done|]. by intros Hnot.
Qed.

(** X13: the creation of the data directory in [save_processed_issues]
    is not guarded.  When the artifact of an issue has been written and
    that creation then fails, [process_issue] raises the failure, so the
    rest of the project's batch is not processed in this round; the
    artifact stays written and the key is in the in-memory set, so the
    running watcher does not publish the issue again. *)
Theorem recorded_despite_save_failure env pw issue w e :
  let parsed := parse_issue_at (utcnow env (tick w)) pw issue in
  let queued := queue_task env parsed pw (before_queue w) in
  let labelled := update_issue_labels env pw issue queued.2 in
  queued.1 = Ok tt →
  fs_mkdir env (tick labelled.2) (path_join (config_dir env) "data") = Some e →
  let out := process_issue env pw issue w in
  out.1 = Raise e
  ∧ issue_key pw issue ∈ processed_issues out.2
  ∧ (∃ evs, trace out.2 = trace w ++ evs ∧ published evs = [parsed])
  ∧ ∀ env' issues, (process_fetched env' pw (issue :: issues) out.2)
                   = process_fetched env' pw issues out.2.
Proof.
  intros parsed queued labelled Hq Hmk out.
  destruct (process_issue_cases env pw issue w) as (evs & Htr & _ & Hcase).
  fold parsed queued out in Htr, Hcase.
  destruct Hcase as [(e' & Hq' & _)|(_ & Hpub & Hpr)]; [rewrite Hq in Hq'; discriminate|].
  assert (issue_key pw issue ∈ processed_issues out.2) as Hkey by (rewrite Hpr; set_solver).
  split; [|split; [done|split; [by exists evs|]]].
  - subst out. rewrite process_issue_after_queue. fold parsed queued.
    subst labelled. destruct queued as [[[]|?] wq]; [|discriminate]. cbn [fst snd] in *.
    rewrite run_bind.
    destruct (update_issue_labels_never_raises env pw issue wq) as [[] Hok].
    destruct (update_issue_labels env pw issue wq) as [rl wl]. cbn [fst snd] in *. subst rl.
    rewrite run_bind. cbn [add_processed]. rewrite run_bind.
    by rewrite (save_raises_mkdir_error env _ e).
  - intros env' issues.
    by apply (process_fetched_skip env' pw [] issue issues).
Qed.

Lemma recorded_despite_save_failure_witness :
  let env :=
    {| utcnow := Sample.clock;
       home := "/home/bird";
       http_github_issues := λ _ _ _ _, inr [];
       http_gitlab_project := λ _ _ _, inr 42;
       http_gitlab_issues := λ _ _ _, inr [];
       http_gitlab_put := λ _ _ _ _ _, inr 200;
       run_gh_issue_edit := λ _ _ _ _ _, inr 0;
       fs_mkdir := λ _ path,
         if String.eqb path "/home/bird/.config/lazy_birtd/data" then Some OtherError else None;
       fs_write_text := λ _ _, None |} in
  let out := process_issue env Sample.github_watcher Sample.first_issue Sample.empty_world in
  out.1 = Raise OtherError
  ∧ issue_key Sample.github_watcher Sample.first_issue ∈ processed_issues out.2.
Proof.
  intros env out.
  destruct (recorded_despite_save_failure env Sample.github_watcher Sample.first_issue
              Sample.empty_world OtherError) as (Hraise & Hkey & _); [by vm_compute..|].
  split; [exact Hraise|exact Hkey].
Defined.




(** * Accounting over rounds *)

Global Instance accounted_preorder : PreOrder accounted.
Proof.
  split.
  - intros w. exists []. rewrite app_nil_r. split; [done|]. cbn. set_solver.
  - intros w1 w2 w3 (evs1 & Ht1 & Hp1) (evs2 & Ht2 & Hp2).
    exists (evs1 ++ evs2). rewrite Ht2, Ht1, app_assoc. split; [done|].
    rewrite Hp2, Hp1, published_app, fmap_app, list_to_set_app_L. set_solver.
Qed.

Lemma accounted_quiet {A} (m : M A) :
  respects (appends not_task_write) m → respects (same processed_issues) m →
  respects accounted m.
Proof.
  intros Hq Hs w. destruct (Hq w) as (evs & Htr & Hf). exists evs. split; [done|].
  rewrite (Hs w), (published_quiet evs) by done. cbn. set_solver.
Qed.

Lemma logger_accounted lvl : respects accounted (logger lvl).
Proof. apply accounted_quiet; frame. Qed.

Lemma process_issue_accounted env pw issue :
  respects accounted (process_issue env pw issue).
Proof.
  intros w. destruct (process_issue_cases env pw issue w) as (evs & Htr & _ & Hcase).
  exists evs. split; [done|].
  destruct Hcase as [(e & _ & _ & Hpub & _ & Hpr & _)|(_ & Hpub & Hpr)];
    rewrite Hpub, Hpr; cbn; set_solver.
Qed.

Lemma process_fetched_accounted env pw issues :
  respects accounted (process_fetched env pw issues).
Proof.
  unfold process_fetched. apply respects_bind; [tc_solve|apply accounted_quiet; frame|].
  intros processed. apply respects_bind; [tc_solve| |intros _].
  - case_bool_decide; [apply respects_ret; tc_solve|apply logger_accounted].
  - apply respects_for_each; [tc_solve|]. intros issue. apply process_issue_accounted.
Qed.

Lemma poll_project_accounted env pw : respects accounted (poll_project env pw).
Proof.
  unfold poll_project. apply respects_try_except; [tc_solve| |intros _; apply logger_accounted].
  unfold poll_project_body. apply respects_bind; [tc_solve| |intros issues].
  - apply accounted_quiet; frame.
  - apply process_fetched_accounted.
Qed.

Lemma poll_round_accounted env pws : respects accounted (poll_round env pws).
Proof.
  unfold poll_round. apply respects_bind; [tc_solve| |intros _; apply accounted_quiet; frame].
  apply respects_for_each; [tc_solve|]. intros pw. apply poll_project_accounted.
Qed.

(** X15: over any number of iterations of the main loop, whatever fails
    on the way, the processed set grows by exactly the keys of the
    artifacts that were written: no key is ever removed, a key is
    recorded for every artifact written, and no key is recorded without
    its artifact. *)
Theorem keys_account_for_artifacts env pws n w :
  let out := run_iterations env pws n w in
  ∃ evs,
    trace out.2 = trace w ++ evs
    ∧ processed_issues out.2
      = processed_issues w ∪ list_to_set (task_key <$> published evs).
Proof.
  revert w. induction n as [|n IH]; intros w out; subst out.
  - by apply accounted_preorder.
  - cbn [run_iterations].
    assert (respects accounted
              (try_except (poll_round env pws) any_exception
                 (λ _, logger Error;; logger Info;; emit EvSleep);;
               run_iterations env pws n)) as Hall; [|apply Hall].
    apply respects_bind; [tc_solve| |intros _; exact IH].
    apply respects_try_except; [tc_solve|apply poll_round_accounted|].
    intros _. apply accounted_quiet; frame.
Qed.

(** * No artifact twice *)

Lemma process_batch_keys env pw issues : ∀ w,
  let out := for_each issues (process_issue env pw) w in
  ∃ evs k,
    trace out.2 = trace w ++ evs
    ∧ task_key <$> published evs = issue_key pw <$> take k issues
    ∧ processed_issues out.2 = processed_issues w ∪ keys_of pw (take k issues).
Proof.
  induction issues as [|issue issues IH]; intros w out; subst out.
  - exists [], 0%nat. cbn [for_each ret fst snd]. rewrite app_nil_r, take_0, keys_of_nil.
    repeat split. set_solver.
  - rewrite for_each_cons, run_bind.
    destruct (process_issue_cases env pw issue w) as (evs1 & Htr & _ & Hcase).
    destruct (process_issue env pw issue w) as [[[]|e] w1]; cbn [fst snd] in *.
    + destruct Hcase as [(e & _ & [=] & _)|(_ & Hpub & Hpr)].
      destruct (IH w1) as (evs2 & k & Htr2 & Hkeys & Hpr2).
      exists (evs1 ++ evs2), (S k).
      split; [by rewrite Htr2, Htr, app_assoc|].
      split; [rewrite published_app, Hpub, fmap_app, Hkeys; reflexivity|].
      rewrite Hpr2, Hpr. cbn [take]. rewrite keys_of_cons. set_solver.
    + destruct Hcase as [(e' & _ & _ & Hpub & _ & Hpr & _)|(_ & Hpub & Hpr)].
      * exists evs1, 0%nat. rewrite Hpub, Hpr, take_0, keys_of_nil.
        repeat split; [done|set_solver].
      * exists evs1, 1%nat. rewrite Hpub, Hpr. cbn [take]. rewrite take_0, keys_of_cons, keys_of_nil.
        repeat split; [done|set_solver].
Qed.

Lemma process_fetched_keys env pw issues w :
  let new := new_issues (processed_issues w) pw issues in
  let out := process_fetched env pw issues w in
  ∃ evs k,
    trace out.2 = trace w ++ evs
    ∧ task_key <$> published evs = issue_key pw <$> take k new
    ∧ processed_issues out.2 = processed_issues w ∪ keys_of pw (take k new).
Proof.
  intros new out.
  assert (out = ((if bool_decide (new = []) then ret tt else logger Info);;
                 for_each new (process_issue env pw)) w) as Hout by reflexivity.
  rewrite run_bind in Hout. case_bool_decide as Hnew.
  - cbn [ret] in Hout. rewrite Hnew in *. exists [], 0%nat. rewrite Hout.
    cbn [for_each ret fst snd]. rewrite app_nil_r, take_0, keys_of_nil.
    repeat split. set_solver.
  - cbn [logger emit] in Hout. fold (logged Info w) in Hout.
    destruct (process_batch_keys env pw new (logged Info w)) as (evs & k & Htr & Hkeys & Hpr).
    rewrite <- Hout in Htr, Hpr.
    exists (EvLog Info :: evs), k. cbn [logged trace processed_issues] in *.
    rewrite <- app_assoc in Htr. by repeat split.
Qed.

Lemma published_once_quiet w w' :
  appends not_task_write w w' → same processed_issues w w' →
  published_once w → published_once w'.
Proof.
  intros (evs & Htr & Hq) Hs [Hnd Hin]. unfold published_once.
  rewrite Htr, published_app, (published_quiet evs), app_nil_r, Hs by done. by split.
Qed.

Lemma published_once_emit e w :
  not_task_write e → published_once w → published_once (emit e w).2.
Proof.
  intros He. apply published_once_quiet; [|done].
  exists [e]. split; [done|]. by apply Forall_singleton.
Qed.

Lemma published_once_fetched env pw issues w :
  NoDup (issue_key pw <$> issues) →
  published_once w → published_once (process_fetched env pw issues w).2.
Proof.
  intros Hdistinct [Hnd Hin].
  destruct (process_fetched_keys env pw issues w) as (evs & k & Htr & Hkeys & Hpr).
  set (new := new_issues (processed_issues w) pw issues) in *.
  assert (∀ key, key ∈ issue_key pw <$> take k new → key ∉ processed_issues w) as Hfresh.
  { intros key (issue & -> & Hissue)%list_elem_of_fmap.
    apply subseteq_take in Hissue. unfold new, new_issues in Hissue.
    by apply list_elem_of_filter in Hissue as [? _]. }
  unfold published_once. rewrite Htr, published_app, fmap_app, Hkeys, Hpr. split.
  - apply NoDup_app. split; [done|]. split.
    + intros key (t & -> & Ht)%list_elem_of_fmap Hnew. by apply (Hfresh _ Hnew), Hin.
    + eapply sublist_NoDup; [exact Hdistinct|]. apply fmap_sublist.
      etrans; [apply sublist_take|apply sublist_filter].
  - intros t [Ht|Ht]%elem_of_app; [apply elem_of_union_l; by apply Hin|].
    apply elem_of_union_r. unfold keys_of. rewrite elem_of_list_to_set, <- Hkeys.
    by apply list_elem_of_fmap_2.
Qed.

Lemma published_once_project env pw w :
  fetch_distinct env → published_once w → published_once (poll_project env pw w).2.
Proof.
  intros Hdistinct Hw. unfold poll_project. rewrite run_try_except.
  unfold poll_project_body. rewrite run_bind.
  specialize (Hdistinct pw w).
  assert (published_once (fetch_ready_issues env pw w).2) as Hfetched.
  { eapply published_once_quiet; [| |exact Hw].
    - assert (respects (appends not_task_write) (fetch_ready_issues env pw)) as H by frame.
      apply H.
    - assert (respects (same processed_issues) (fetch_ready_issues env pw)) as H by frame.
      apply H. }
  destruct (fetch_ready_issues env pw w) as [[issues|e] w1]; cbn [fst snd] in *.
  - pose proof (published_once_fetched env pw issues w1 (Hdistinct issues eq_refl) Hfetched)
      as Hdone.
    destruct (process_fetched env pw issues w1) as [[[]|e] w2]; cbn [snd] in *; [done|].
    cbn [any_exception]. by apply (published_once_emit (EvLog Error)).
  - cbn [any_exception]. by apply (published_once_emit (EvLog Error)).
Qed.

Lemma published_once_projects env pws : ∀ w,
  fetch_distinct env → published_once w →
  published_once (for_each pws (poll_project env) w).2.
Proof.
  induction pws as [|pw pws IH]; intros w Hdistinct Hw; [done|].
  rewrite for_each_cons, run_bind.
  pose proof (published_once_project env pw w Hdistinct Hw) as Hone.
  destruct (poll_project_never_raises env pw w) as [[] Hok].
  destruct (poll_project env pw w) as [r w1]. cbn [fst snd] in *. subst r. by apply IH.
Qed.

(** X16: provided no single fetch lists an issue twice, a running
    watcher never writes two artifacts for one dedup key, over any
    number of iterations of the main loop and whatever fetches, writes
    or label updates fail on the way; and every artifact it has written
    has its key in the processed set. *)
Theorem no_artifact_twice env pws n w :
  fetch_distinct env → published_once w →
  published_once (run_iterations env pws n w).2.
Proof.
  intros Hdistinct. revert w. induction n as [|n IH]; intros w Hw; [done|].
  cbn [run_iterations]. rewrite run_bind, run_try_except, poll_round_run. cbn [any_exception].
  apply IH. apply (published_once_emit EvSleep); [done|].
  by apply published_once_projects.
Qed.

Lemma half_broken_fetch_distinct : fetch_distinct Sample.half_broken_env.
Proof.
  intros pw w issues Hfetch.
  assert (issues = [] ∨ ∃ issue, issues = [issue]) as [->|[issue ->]];
    [|apply NoDup_nil_2|apply NoDup_singleton].
  rewrite fetch_ready_issues_run, run_try_except in Hfetch.
  cbv [fetch_github_issues fetch_gitlab_issues gitlab_list_issues call index_from_end
       try_except mbind M_bind bind ask emit raise ret logger any_exception
       Sample.half_broken_env http_github_issues http_gitlab_project http_gitlab_issues]
    in Hfetch.
  repeat case_match; simplify_eq/=; eauto.
Qed.

Lemma no_artifact_twice_witness :
  let out := run_iterations Sample.half_broken_env
               [Sample.github_watcher; Sample.gitlab_watcher] 2 Sample.empty_world in
  published_once out.2
  ∧ t_issue_id <$> published (trace out.2) = [7].
Proof.
  intros out. split; [|by vm_compute].
  apply no_artifact_twice; [apply half_broken_fetch_distinct|].
  split; [apply NoDup_nil_2|]. by intros t Ht%elem_of_nil.
Defined.

(** * Keys and artifact names *)

Lemma str_length_app s t :
  String.length (s +:+ t) = (String.length s + String.length t)%nat.
Proof.
  induction s as [|c s IH]; [done|]. rewrite str_app_cons. cbn [String.length]. by rewrite IH.
Qed.

Lemma str_app_inj_r s1 s2 t : s1 +:+ t = s2 +:+ t → s1 = s2.
Proof.
  revert s2. induction s1 as [|a s1 IH]; intros [|b s2] Heq; [done|..].
  - apply (f_equal String.length) in Heq. rewrite str_app_nil_l, str_app_cons in Heq.
    cbn [String.length] in Heq. rewrite str_length_app in Heq. lia.
  - apply (f_equal String.length) in Heq. rewrite str_app_nil_l, str_app_cons in Heq.
    cbn [String.length] in Heq. rewrite str_length_app in Heq. lia.
  - rewrite !str_app_cons in Heq. injection Heq as -> Heq. f_equal. by apply IH.
Qed.

Lemma to_int_proper n : Z.to_int n ≠ Decimal.Pos Decimal.Nil ∧ Z.to_int n ≠ Decimal.Neg Decimal.Nil.
Proof.
  destruct n as [|p|p]; cbn [Z.to_int]; split; try done;
    intros [= Hp]; by apply DecimalPos.Unsigned.to_uint_nonnil in Hp.
Qed.

Lemma of_int_inj a b : PyStr.of_int a = PyStr.of_int b → a = b.
Proof.
  unfold PyStr.of_int. intros Heq. apply DecimalZ.to_int_inj.
  apply (f_equal NilZero.int_of_string) in Heq.
  destruct (to_int_proper a), (to_int_proper b).
  rewrite !NilZero.isi in Heq by done. by injection Heq.
Qed.

(** X17: within one project the issue number decides both the dedup key
    and the artifact's name, and it does so without collisions: two
    issues with the same key, or two tasks of one project with the same
    artifact name, have the same number.  Issues with different numbers
    therefore never mask one another in the processed set nor overwrite
    one another's artifact. *)
Theorem issue_number_identifies pw :
  (∀ a b, issue_key pw a = issue_key pw b → i_id a = i_id b)
  ∧ (∀ s t, t_project_id s = t_project_id t →
            task_file_name s = task_file_name t → t_issue_id s = t_issue_id t).
Proof.
  split.
  - intros a b Heq. unfold issue_key in Heq.
    apply (inj (String.app (project_id pw))) in Heq.
    apply (inj (String.app ":")) in Heq. by apply of_int_inj.
  - intros s t Hpid Heq. unfold task_file_name in Heq. rewrite Hpid in Heq.
    apply (inj (String.app "task-")) in Heq.
    rewrite <- !str_app_assoc in Heq. apply str_app_inj_r in Heq.
    apply (inj (String.app _)) in Heq. by apply of_int_inj.
Qed.

Lemma issue_number_identifies_witness :
  i_id Sample.first_issue
  = i_id (Sample.issue 1 "2024-05-05T00:00:00Z" ["ready"] "another body").
Proof.
  destruct (issue_number_identifies Sample.github_watcher) as [Hkey _].
  by apply Hkey.
Defined.

(** * The dedup file across a restart *)

(** X18: what [load_processed_issues] finds after a save.  When the data
    directory can be made and the file read, it returns the in-memory set
    that was saved if the write of the dedup file was accepted, and
    otherwise, the failed write having been swallowed, the set the file
    held before, which is empty when there was no file. *)
Theorem load_after_save env read_json w :
  let data_dir := path_join (config_dir env) "data" in
  fs_mkdir env (tick w) data_dir = None →
  let saved := save_processed_issues env w in
  fs_mkdir env (tick saved.2) data_dir = None →
  read_json (S (tick saved.2)) (processed_file env) = None →
  (load_processed_issues env read_json saved.2).1
  = Ok (match fs_write_text env (S (tick w)) (processed_file env) with
        | None => processed_issues w
        | Some _ => from_option set_of_content ∅ (files w !! processed_file env)
        end).
Proof.
  intros data_dir Hmk saved. subst saved.
  cbv [save_processed_issues mkdir write_text try_except mbind M_bind bind ask emit raise ret
       logger store_file any_exception get_processed]. fold data_dir.
  rewrite Hmk. cbn [tick].
  destruct (fs_write_text env (S (tick w)) (processed_file env)) as [e|];
    cbn [tick snd fst processed_issues files trace]; intros Hmk2 Hread;
    cbv [load_processed_issues mkdir try_except mbind M_bind bind ask emit raise ret
         logger any_exception get_files]; fold data_dir;
    cbn [tick snd fst processed_issues files trace]; rewrite Hmk2;
    cbn [tick snd fst processed_issues files trace].
  - destruct (files w !! processed_file env) as [content|]; [|done].
    cbn [tick]. by rewrite Hread.
  - rewrite lookup_insert_eq. cbn [tick]. by rewrite Hread.
Qed.

Lemma load_after_save_witness :
  let w := {| tick := 0; processed_issues := {["game:1"]}; files := ∅; trace := [] |} in
  (load_processed_issues Sample.quiet_env (λ _ _, None)
     (save_processed_issues Sample.quiet_env w).2).1
  = Ok {["game:1"]}.
Proof.
  intros w.
  by rewrite (load_after_save Sample.quiet_env (λ _ _, None) w).
Defined.

(** X19: the edges of [load_processed_issues].  With no dedup file it
    returns the empty set and reads nothing; a file that cannot be read
    or decoded gives the empty set too, after a warning, so that every
    issue counts as new; only a failure to make the data directory is
    raised. *)
Theorem load_processed_issues_edges env read_json w :
  let data_dir := path_join (config_dir env) "data" in
  (∀ e, fs_mkdir env (tick w) data_dir = Some e →
        load_processed_issues env read_json w = (Raise e, asked_once w))
  ∧ (fs_mkdir env (tick w) data_dir = None →
     files w !! processed_file env = None →
     (load_processed_issues env read_json w).1 = Ok ∅
     ∧ tick (load_processed_issues env read_json w).2 = S (tick w))
  ∧ (∀ e, fs_mkdir env (tick w) data_dir = None →
          is_Some (files w !! processed_file env) →
          read_json (S (tick w)) (processed_file env) = Some e →
          (load_processed_issues env read_json w).1 = Ok ∅
          ∧ trace (load_processed_issues env read_json w).2
            = trace w ++ [EvMkdir data_dir; EvLog Warning]).
Proof.
  intros data_dir. split; [|split].
  - intros e Hmk.
    cbv [load_processed_issues mkdir try_except mbind M_bind bind ask emit raise ret
         logger any_exception get_files]. fold data_dir. by rewrite Hmk.
  - intros Hmk Hnone.
    cbv [load_processed_issues mkdir try_except mbind M_bind bind ask emit raise ret
         logger any_exception get_files]. fold data_dir. rewrite Hmk.
    cbn [tick snd fst processed_issues files trace]. by rewrite Hnone.
  - intros e Hmk [content Hsome] Hread.
    cbv [load_processed_issues mkdir try_except mbind M_bind bind ask emit raise ret
         logger any_exception get_files]. fold data_dir. rewrite Hmk.
    cbn [tick snd fst processed_issues files trace]. rewrite Hsome. cbn [tick].
    rewrite Hread. cbn [tick snd fst processed_issues files trace].
    by rewrite <- app_assoc.
Qed.

Lemma load_processed_issues_edges_witness :
  (load_processed_issues Sample.quiet_env (λ _ _, None) Sample.empty_world).1 = Ok ∅.
Proof.
  destruct (load_processed_issues_edges Sample.quiet_env (λ _ _, None) Sample.empty_world)
    as (_ & Hnone & _).
  by destruct Hnone.
Defined.

(** * Start-up *)

Section BootFacts.

Variable path_str : string → string.
Variable secrets : Secrets.

Lemma boot_bind_run {A B} (m : Boot A) (k : A → Boot B) :
  (m ≫= k).2 = match m.2 with
               | Started a => (k a).2
               | SysExit code => SysExit code
               | Uncaught e => Uncaught e
               end.
Proof.
  destruct m as [logs [a|code|e]]; cbn; [|done..]. by destruct (k a).
Qed.

Lemma boot_try_run {A} (m : Boot A) handler :
  (boot_try m handler).2 = match m.2 with
                           | Uncaught e => (handler e).2
                           | other => other
                           end.
Proof.
  destruct m as [logs [a|code|e]]; cbn; [done..|]. by destruct (handler e).
Qed.

(** Reading a token file that exists. *)
Lemma token_file_read name :
  token_exists secrets name = true →
  (match secrets name with
   | None =>
       boot_log Error;; boot_log Error;; boot_log Error;;
       boot_raise FileNotFoundError
   | Some content =>
       boot_try
         (match content with
          | inl e => boot_raise (ReadError e)
          | inr text =>
              let token := PyStr.strip text in
              if PyStr.is_empty token then boot_raise ValueError else boot_ret token
          end)
         (λ e, boot_log Error;; boot_raise e)
   end).2 = from_option token_of_content (Uncaught FileNotFoundError) (secrets name).
Proof.
  unfold token_exists. destruct (secrets name) as [[e|text]|]; [done| |done].
  intros _. cbn. by destruct (PyStr.is_empty (PyStr.strip text)).
Qed.

(** X20: the token of a project is read from the first file that exists
    among the project's own, the platform's and the shared one.
    Existence alone decides: the stripped content of that file is the
    token, and when it is blank or cannot be read the load fails, even if
    a later candidate holds a good token.  When none exists the load
    fails as well. *)
Theorem token_precedence project_id platform :
  (load_token secrets project_id platform).2
  = match chosen_token_file secrets project_id platform with
    | Some name => from_option token_of_content (Uncaught FileNotFoundError) (secrets name)
    | None => Uncaught FileNotFoundError
    end.
Proof.
  unfold load_token, chosen_token_file, token_candidates.
  set (f1 := project_id +:+ "_token"). set (f2 := platform +:+ "_token").
  cbn [list_find]. cbv zeta.
  destruct (token_exists secrets f1) eqn:E1; cbv iota; rewrite ?E1; cbv iota.
  - rewrite decide_True by done. cbn [fmap option_fmap option_map snd].
    by apply token_file_read.
  - rewrite decide_False by done.
    destruct (token_exists secrets f2) eqn:E2; cbv iota; rewrite ?E2; cbv iota.
    + rewrite decide_True by done. cbn [fmap option_fmap option_map snd prod_map].
      by apply token_file_read.
    + rewrite decide_False by done.
      destruct (token_exists secrets "api_token") eqn:E3.
      * rewrite decide_True by done. cbn [fmap option_fmap option_map snd prod_map].
        by apply token_file_read.
      * rewrite decide_False by done. cbn [fmap option_fmap option_map snd prod_map].
        unfold token_exists in E3. by destruct (secrets "api_token").
Qed.

(** Loading a token never exits the process. *)
Lemma load_token_no_exit project_id platform code :
  (load_token secrets project_id platform).2 ≠ SysExit code.
Proof.
  unfold load_token. cbv zeta.
  match goal with |- context [secrets ?name] => generalize name end.
  intros name. destruct (secrets name) as [[e|text]|]; cbn; [done| |done].
  by destruct (PyStr.is_empty (PyStr.strip text)).
Qed.

Lemma require_run key value :
  (require key value).2 = match value with
                          | Some v => Started v
                          | None => Uncaught (KeyError key)
                          end.
Proof. by destruct value. Qed.

Lemma init_no_exit project code :
  (ProjectWatcher_init path_str secrets project).2 ≠ SysExit code.
Proof.
  unfold ProjectWatcher_init.
  rewrite boot_bind_run, require_run. destruct (e_id project) as [pid|]; [|done].
  rewrite boot_bind_run, require_run. destruct (e_name project); [|done].
  rewrite boot_bind_run, require_run. destruct (e_type project); [|done].
  rewrite boot_bind_run, require_run. destruct (e_path project); [|done].
  rewrite boot_bind_run, require_run. destruct (e_git_platform project) as [plat|]; [|done].
  rewrite boot_bind_run, require_run. destruct (e_repository project); [|done].
  rewrite boot_bind_run.
  pose proof (load_token_no_exit pid plat code).
  destruct (load_token secrets pid plat).2 as [token|code0|e] eqn:E.
  - by rewrite !boot_bind_run.
  - congruence.
  - done.
Qed.

Lemma load_entry_run watchers project :
  skippable project →
  (load_entry path_str secrets watchers project).2
  = Started (watchers ++ option_list (watcher_of path_str secrets project)).
Proof.
  intros Hskip. unfold load_entry, watcher_of.
  destruct (enabled project) eqn:Hen; cbn [negb andb].
  - case_bool_decide as Hmissing.
    + rewrite bool_decide_eq_false_2 by done. cbn. by rewrite app_nil_r.
    + rewrite bool_decide_eq_true_2 by done.
      rewrite boot_try_run, boot_bind_run.
      pose proof (init_no_exit project) as Hexit.
      destruct (ProjectWatcher_init path_str secrets project).2 as [watcher|code|e]; cbn.
      * done.
      * by destruct (Hexit code).
      * by rewrite app_nil_r.
  - destruct (Hskip Hen) as [id Hid]. rewrite boot_bind_run, require_run, Hid.
    cbn. by rewrite app_nil_r.
Qed.

Lemma load_entries_run projects : ∀ watchers,
  Forall skippable projects →
  (load_entries path_str secrets projects watchers).2
  = Started (watchers ++ omap (watcher_of path_str secrets) projects).
Proof.
  induction projects as [|project projects IH]; intros watchers Hskip.
  - cbn. by rewrite app_nil_r.
  - apply Forall_cons in Hskip as [Hp Hskip].
    cbn [load_entries]. rewrite boot_bind_run, load_entry_run by done.
    rewrite IH by done. f_equal. rewrite <- app_assoc. f_equal.
    cbn [omap list_omap]. by destruct (watcher_of path_str secrets project).
Qed.

(** X21: when the configuration lists projects and every disabled entry
    has an id, [load_projects] returns the watchers of exactly those
    entries that are enabled, have all required fields and whose watcher
    can be initialised (its token loads), in the order of the list; the
    other entries are skipped without affecting them.  When no entry
    qualifies the process exits with status 1. *)
Theorem load_projects_selects config entries :
  cfg_projects config = Some entries → entries ≠ [] →
  Forall skippable entries →
  (load_projects path_str secrets config).2
  = let watchers := omap (watcher_of path_str secrets) entries in
    if bool_decide (watchers = []) then SysExit 1 else Started watchers.
Proof.
  intros Hcfg Hne Hskip. unfold load_projects. rewrite Hcfg.
  destruct entries as [|project rest]; [done|].
  rewrite !boot_bind_run. cbn [boot_log snd].
  rewrite load_entries_run by done. rewrite app_nil_l.
  by case_bool_decide.
Qed.

Lemma load_entries_fatal before project after watchers :
  Forall skippable before →
  enabled project = false → e_id project = None →
  (load_entries path_str secrets (before ++ project :: after) watchers).2
  = Uncaught (KeyError "id").
Proof.
  intros Hskip Hen Hid. revert watchers.
  induction Hskip as [|p before Hp _ IH]; intros watchers; cbn [app load_entries].
  - rewrite boot_bind_run. unfold load_entry. rewrite Hen. cbn [negb].
    by rewrite boot_bind_run, require_run, Hid.
  - rewrite boot_bind_run, load_entry_run by done. apply IH.
Qed.

(** X22: a disabled entry without an id stops the start-up, although the
    project is not wanted: skipping it logs its id, the lookup raises and
    nothing catches the exception, so the entries after it are never
    looked at. *)
Theorem disabled_entry_without_id_is_fatal config before project after :
  cfg_projects config = Some (before ++ project :: after) →
  Forall skippable before →
  enabled project = false → e_id project = None →
  (load_projects path_str secrets config).2 = Uncaught (KeyError "id").
Proof.
  intros Hcfg Hskip Hen Hid. unfold load_projects. rewrite Hcfg.
  pose proof (load_entries_fatal before project after [] Hskip Hen Hid) as Hfatal.
  destruct (before ++ project :: after) as [|p rest] eqn:Hlist; [by destruct before|].
  rewrite !boot_bind_run. cbn [boot_log snd]. by rewrite Hfatal.
Qed.

Lemma legacy_init_run config :
  (ProjectWatcher_init path_str secrets (legacy_project config)).2
  = match (load_token secrets "default" (default "github" (cfg_git_platform config))).2 with
    | Started token => Started (legacy_watcher path_str config token)
    | SysExit code => SysExit code
    | Uncaught e => Uncaught e
    end.
Proof.
  unfold ProjectWatcher_init.
  repeat (rewrite boot_bind_run, require_run;
          cbn [legacy_project e_id e_name e_type e_path e_git_platform e_repository]).
  rewrite boot_bind_run.
  destruct (load_token secrets "default" (default "github" (cfg_git_platform config))).2;
    [|done..].
  by rewrite !boot_bind_run.
Qed.

(** X23: without a usable [projects] list, a configuration that has a
    [project] or a [repository] key gives one watcher, named [default],
    with the legacy defaults (platform [github], type [godot], path [.])
    for what the configuration leaves out; if its token cannot be loaded
    the process exits with status 1.  A configuration with neither key
    exits with status 1 as well. *)
Theorem legacy_format config :
  no_projects config →
  (load_projects path_str secrets config).2
  = if bool_decide (is_Some (cfg_project config) ∨ is_Some (cfg_repository config)) then
      match (load_token secrets "default" (default "github" (cfg_git_platform config))).2 with
      | Started token => Started [legacy_watcher path_str config token]
      | _ => SysExit 1
      end
    else SysExit 1.
Proof.
  intros Hnone. unfold load_projects. rewrite boot_bind_run.
  assert (match cfg_projects config with
          | Some (project :: rest) =>
              boot_log Info;; load_entries path_str secrets (project :: rest) []
          | _ =>
              if bool_decide (is_Some (cfg_project config) ∨ is_Some (cfg_repository config))
              then
                boot_log Info;;
                boot_try
                  (watcher ← ProjectWatcher_init path_str secrets (legacy_project config);
                   boot_ret [watcher])
                  (λ _, boot_log Error;; boot_exit 1)
              else boot_log Error;; boot_log Error;; boot_log Error;; boot_exit 1
          end
          = if bool_decide (is_Some (cfg_project config) ∨ is_Some (cfg_repository config))
            then
              boot_log Info;;
              boot_try
                (watcher ← ProjectWatcher_init path_str secrets (legacy_project config);
                 boot_ret [watcher])
                (λ _, boot_log Error;; boot_exit 1)
            else boot_log Error;; boot_log Error;; boot_log Error;; boot_exit 1) as ->.
  { by destruct Hnone as [-> | ->]. }
  case_bool_decide; [|done].
  rewrite boot_bind_run. cbn [boot_log snd].
  rewrite boot_try_run, boot_bind_run, legacy_init_run.
  pose proof (load_token_no_exit "default" (default "github" (cfg_git_platform config)))
    as Hexit.
  destruct (load_token secrets "default" (default "github" (cfg_git_platform config))).2
    as [token|code|e] eqn:E.
  - cbn [boot_ret snd]. by rewrite bool_decide_eq_false_2.
  - by destruct (Hexit code).
  - by rewrite boot_bind_run.
Qed.

End BootFacts.

Lemma load_projects_selects_witness :
  (load_projects (λ p, p) BootSample.shared_token_only
     (BootSample.config_of
        [BootSample.disabled_entry; BootSample.entry "game"; BootSample.incomplete_entry;
         BootSample.entry "tool"])).2
  = Started
      [mkProjectWatcher (mkProjectConfig None (Some "make test") None None None) "game" "Name"
         "godot" "/srv" "github" "owner/repo" "s3cret";
       mkProjectWatcher (mkProjectConfig None (Some "make test") None None None) "tool" "Name"
         "godot" "/srv" "github" "owner/repo" "s3cret"].
Proof.
  rewrite (load_projects_selects (λ p, p) BootSample.shared_token_only _
             [BootSample.disabled_entry; BootSample.entry "game"; BootSample.incomplete_entry;
              BootSample.entry "tool"]); [reflexivity|reflexivity|done|].
  repeat constructor; intros [=]; by eexists.
Defined.

Lemma disabled_entry_without_id_is_fatal_witness :
  (load_projects (λ p, p) BootSample.shared_token_only
     (BootSample.config_of
        [BootSample.entry "game"; BootSample.nameless_disabled_entry; BootSample.entry "tool"])).2
  = Uncaught (KeyError "id").
Proof.
  apply (disabled_entry_without_id_is_fatal (λ p, p) BootSample.shared_token_only _
           [BootSample.entry "game"] BootSample.nameless_disabled_entry
           [BootSample.entry "tool"]); [reflexivity| |reflexivity..].
  repeat constructor. intros [=].
Defined.

Lemma legacy_format_witness :
  (load_projects (λ p, p) BootSample.shared_token_only BootSample.legacy_config).2
  = Started
      [mkProjectWatcher (mkProjectConfig None (Some "") None None None) "default"
         "Default Project" "godot" "." "github" "owner/repo" "s3cret"].
Proof.
  rewrite (legacy_format (λ p, p) BootSample.shared_token_only); [reflexivity|].
  by left.
Defined.

